(** * lib/wordpress.ts: the WordPress REST / ACF client

    A shallow embedding of [src/lib/wordpress.ts] and the properties of its
    helpers.  JavaScript strings are sequences of UTF-16 code units, the
    asynchronous fetch functions are computations over a remote server that
    log the requests they issue, and the plain object used as a dictionary
    by [groupSkillsByCategory] keeps its prototype.  The URL constructor,
    the JSON parser and the rendering of dates belong to the platform and
    are parameters. *)

From Stdlib Require Import List NArith ZArith Bool Lia String Ascii.
From Stdlib Require Import Sorting.Permutation Numbers.DecimalString.
From Stdlib Require DecimalPos DecimalN DecimalZ.
Import ListNotations.

Set Implicit Arguments.

Local Open Scope N_scope.
Local Open Scope list_scope.

(* ------------------------------------------------------------------ *)
(** * JavaScript strings *)
(* ------------------------------------------------------------------ *)

Module JS.

(** A string value is a finite sequence of 16-bit code units. *)
Definition code_unit := N.
Definition jsstring := list code_unit.

(** Source literals are written in ASCII. *)
Definition js (s : string) : jsstring :=
  List.map N_of_ascii (list_ascii_of_string s).

Definition jsstring_eqb (s t : jsstring) : bool :=
  if list_eq_dec N.eq_dec s t then true else false.

Definition empty : jsstring := [].

(** [ToBoolean] on a string: only the empty string is falsy. *)
Definition truthy (s : jsstring) : bool :=
  match s with [] => false | _ :: _ => true end.

(** [WhiteSpace] and [LineTerminator] code points, the set that
    [String.prototype.trim] strips: TAB, LF, VT, FF, CR, SP, NBSP, the
    Unicode space separators, LS, PS and the byte order mark. *)
Definition is_white_space (c : code_unit) : bool :=
  ((9 <=? c) && (c <=? 13))
  || (c =? 32) || (c =? 160) || (c =? 5760)
  || ((8192 <=? c) && (c <=? 8202))
  || (c =? 8232) || (c =? 8233) || (c =? 8239) || (c =? 8287)
  || (c =? 12288) || (c =? 65279).

Fixpoint trimStart (s : jsstring) : jsstring :=
  match s with
  | [] => []
  | c :: r => if is_white_space c then trimStart r else s
  end.

Definition trimEnd (s : jsstring) : jsstring := rev (trimStart (rev s)).

(** [s.trim()] *)
Definition trim (s : jsstring) : jsstring := trimEnd (trimStart s).

(** [s.split(sep)] for a separator of one code unit.  The result is never
    empty: a string without separator is returned whole. *)
Fixpoint split (sep : code_unit) (s : jsstring) : list jsstring :=
  match s with
  | [] => [[]]
  | c :: r =>
      if c =? sep then [] :: split sep r
      else match split sep r with
           | [] => [[c]]
           | w :: ws => (c :: w) :: ws
           end
  end.

(** [s.toLowerCase()] on the Basic Latin block.  Outside it the Unicode
    case mappings are not reproduced; no code point outside Basic Latin
    lowercases to a letter of the word the source compares with. *)
Definition lower_unit (c : code_unit) : code_unit :=
  if (65 <=? c) && (c <=? 90) then c + 32 else c.

Definition toLowerCase (s : jsstring) : jsstring := List.map lower_unit s.

(** [String(n)] for an integer that a number holds exactly, which is
    printed in plain decimal digits. *)
Definition String_of_N (n : N) : jsstring :=
  js (NilZero.string_of_uint (N.to_uint n)).

Definition String_of_Z (z : Z) : jsstring :=
  js (NilZero.string_of_int (Z.to_int z)).

(** Substring test, used to read "contains" in statements. *)
Fixpoint starts_with (p s : jsstring) : bool :=
  match p, s with
  | [], _ => true
  | _ :: _, [] => false
  | a :: p', b :: s' => (a =? b) && starts_with p' s'
  end.

Fixpoint includes (s p : jsstring) : bool :=
  starts_with p s ||
  match s with
  | [] => false
  | _ :: r => includes r p
  end.

End JS.

Import JS.

Declare Scope js_scope.
Delimit Scope js_scope with js.
Notation "s +++ t" := (@app code_unit s t)
  (at level 60, right associativity) : js_scope.
Local Open Scope js_scope.

(* ------------------------------------------------------------------ *)
(** * Formatting helpers *)
(* ------------------------------------------------------------------ *)

(** ** stripHtml *)

Definition LT : code_unit := 60.  (* < *)
Definition GT : code_unit := 62.  (* > *)

(** [/<[^>]*>/g] replaced by the empty string.  A match starts at a [<]
    and, the class [[^>]] excluding only [>], runs up to the first [>]
    that follows (line terminators included); a [<] with no [>] after it
    matches nothing and is kept.  Matching resumes after each match. *)
Fixpoint replace_tags (s : jsstring) : jsstring :=
  match s with
  | [] => []
  | c :: r =>
      if (c =? LT) && existsb (N.eqb GT) r then skip_tag r
      else c :: replace_tags r
  end
with skip_tag (s : jsstring) : jsstring :=
  match s with
  | [] => []
  | c :: r => if c =? GT then replace_tags r else skip_tag r
  end.

Definition stripHtml (html : jsstring) : jsstring :=
  trim (replace_tags html).

Definition has_GT (s : jsstring) : bool := existsb (N.eqb GT) s.

(** What the substitution does, stated on the pattern: a tag is [<], then
    code units other than [>], then [>]; scanning from the left, each tag
    is dropped, and a code unit at which no tag starts is kept. *)
Definition no_GT (t : jsstring) : bool := forallb (fun c => negb (c =? GT)) t.

Inductive tags_removed : jsstring -> jsstring -> Prop :=
| removed_nil : tags_removed [] []
| removed_tag t r o :
    no_GT t = true -> tags_removed r o ->
    tags_removed (LT :: t ++ GT :: r) o
| removed_open r o :
    no_GT r = true -> tags_removed r o ->
    tags_removed (LT :: r) (LT :: o)
| removed_keep c r o :
    c <> LT -> tags_removed r o ->
    tags_removed (c :: r) (c :: o).

(** No tag occurs: no [<] is followed, at any distance, by a [>]. *)
Fixpoint tag_free (s : jsstring) : bool :=
  match s with
  | [] => true
  | c :: r => negb ((c =? LT) && existsb (N.eqb GT) r) && tag_free r
  end.

(** [tokens.join(sep)] *)
Fixpoint join (sep : code_unit) (tokens : list jsstring) : jsstring :=
  match tokens with
  | [] => []
  | [w] => w
  | w :: ws => w ++ sep :: join sep ws
  end.

(** ** parseTechs *)

Definition COMMA : code_unit := 44.

(** [techString?.split(',').map(t => t.trim()).filter(Boolean) ?? []];
    [None] stands for a [null] or [undefined] argument. *)
Definition parseTechs (techString : option jsstring) : list jsstring :=
  match techString with
  | Some s => filter truthy (List.map trim (split COMMA s))
  | None => []
  end.

(** ** formatDate *)

(** Number values, as far as the module's arithmetic goes: [NaN], an
    integer that a number holds exactly (of magnitude at most 2^53 - 1;
    the two zeros are not told apart), or another number (a fraction, an
    infinity, a larger integer), whose value the model does not compute. *)
Inductive number := NaN | Int (z : Z) | OtherNumber.

Definition MAX_SAFE_INTEGER : Z := 9007199254740991.

(** The number whose mathematical value is the integer [z]. *)
Definition exact (z : Z) : number :=
  if (Z.abs z <=? MAX_SAFE_INTEGER)%Z then Int z else OtherNumber.

Definition number_sub (a b : number) : number :=
  match a, b with
  | NaN, _ | _, NaN => NaN
  | Int x, Int y => exact (x - y)
  | _, _ => OtherNumber
  end.

Definition number_neg (a : number) : number :=
  match a with
  | Int x => Int (- x)
  | NaN => NaN
  | OtherNumber => OtherNumber
  end.

Definition is_digit (c : code_unit) : bool := (48 <=? c) && (c <=? 57).

Fixpoint digits_value (acc : Z) (s : jsstring) : number :=
  match s with
  | [] => Int acc
  | c :: r =>
      if is_digit c then digits_value (10 * acc + Z.of_N (c - 48)) r
      else NaN
  end.

(** The value of a string of decimal digits. *)
Definition decimal_value (ds : jsstring) : Z :=
  match digits_value 0 ds with Int z => z | _ => 0%Z end.

(** The longest prefix of decimal digits, and what follows it. *)
Fixpoint span_digits (s : jsstring) : jsstring * jsstring :=
  match s with
  | [] => ([], [])
  | c :: r =>
      if is_digit c then let (ds, t) := span_digits r in (c :: ds, t)
      else ([], s)
  end.

Definition PLUS : code_unit := 43.
Definition HYPHEN : code_unit := 45.
Definition DOT : code_unit := 46.

(** [m] times ten to the [e]. *)
Definition scaled (m e : Z) : number :=
  if (0 <=? e)%Z then exact (m * 10 ^ e)
  else
    let d := (10 ^ (- e))%Z in
    if (m mod d =? 0)%Z then exact (m / d) else OtherNumber.

(** [ExponentPart], optional: [e] or [E], an optional sign, digits. *)
Definition exponent_part (s : jsstring) : option Z :=
  match s with
  | [] => Some 0%Z
  | c :: r =>
      if (c =? 101) || (c =? 69) then
        let '(sign, ds) :=
          match r with
          | [] => (1%Z, [])
          | x :: t =>
              if x =? PLUS then (1%Z, t)
              else if x =? HYPHEN then ((-1)%Z, t)
              else (1%Z, r)
          end in
        match span_digits ds with
        | (c0 :: d, []) => Some (sign * decimal_value (c0 :: d))%Z
        | _ => None
        end
      else None
  end.

(** [StrUnsignedDecimalLiteral]: [Infinity], or digits with an optional
    fraction and exponent, at least one digit before or after the point. *)
Definition unsigned_decimal (s : jsstring) : number :=
  if jsstring_eqb s (js "Infinity") then OtherNumber
  else
    let (ip, r1) := span_digits s in
    let (fp, r2) :=
      match r1 with
      | [] => ([], [])
      | c :: r => if c =? DOT then span_digits r else ([], r1)
      end in
    match ip ++ fp with
    | [] => NaN
    | ds =>
        match exponent_part r2 with
        | Some e => scaled (decimal_value ds) (e - Z.of_nat (List.length fp))
        | None => NaN
        end
    end.

(** The value of a digit in the given radix. *)
Definition radix_digit (radix : Z) (c : code_unit) : option Z :=
  let v :=
    if (48 <=? c) && (c <=? 57) then Some (Z.of_N (c - 48))
    else if (97 <=? c) && (c <=? 102) then Some (Z.of_N (c - 87))
    else if (65 <=? c) && (c <=? 70) then Some (Z.of_N (c - 55))
    else None in
  match v with
  | Some d => if (d <? radix)%Z then Some d else None
  | None => None
  end.

Fixpoint radix_value (radix acc : Z) (s : jsstring) : option Z :=
  match s with
  | [] => Some acc
  | c :: r =>
      match radix_digit radix c with
      | Some d => radix_value radix (radix * acc + d) r
      | None => None
      end
  end.

(** [NonDecimalIntegerLiteral]: [0x], [0o] or [0b] (in either case) and
    at least one digit of the radix; [None] when the string is not one. *)
Definition non_decimal (t : jsstring) : option number :=
  match t with
  | z :: p :: d :: ds =>
      let radix :=
        if (p =? 120) || (p =? 88) then Some 16%Z
        else if (p =? 111) || (p =? 79) then Some 8%Z
        else if (p =? 98) || (p =? 66) then Some 2%Z
        else None in
      match z =? 48, radix with
      | true, Some b => option_map exact (radix_value b 0 (d :: ds))
      | _, _ => None
      end
  | _ => None
  end.

(** [Number(v)] where [v] is a string or [undefined] ([None]): white
    space is trimmed; the empty string is 0; a numeric literal (a signed
    decimal with optional fraction and exponent, [Infinity], or an
    unsigned literal in radix 16, 8 or 2) is its value, given exactly when
    it is an integer in the exact range; any other string is [NaN]. *)
Definition Number_of (v : option jsstring) : number :=
  match v with
  | None => NaN
  | Some s =>
      match trim s with
      | [] => Int 0
      | c :: r =>
          match non_decimal (c :: r) with
          | Some n => n
          | None =>
              if c =? PLUS then unsigned_decimal r
              else if c =? HYPHEN then number_neg (unsigned_decimal r)
              else unsigned_decimal (c :: r)
          end
      end
  end.

Section FormatDate.

(** [new Date(y, m).toLocaleDateString('es-ES', { year: 'numeric',
    month: 'short' })] as a function of the year [y] and the month index
    [m] (0 is January): the date arithmetic and the locale data belong to
    the platform. *)
Variable toLocaleDateString_esES : number -> number -> jsstring.

Definition formatDate (dateStr : jsstring) : jsstring :=
  if negb (truthy dateStr) then empty
  else if jsstring_eqb (toLowerCase dateStr) (js "presente")
  then js "Presente"
  else
    let parts := split HYPHEN dateStr in
    let year := nth_error parts 0 in
    let month := nth_error parts 1 in
    toLocaleDateString_esES
      (Number_of year) (number_sub (Number_of month) (Int 1)).

End FormatDate.

(** The rendering of the CLDR data for [es-ES] ("ene 2024"), for months
    and years in the usual range; used to run [formatDate] on examples. *)
Definition cldr_esES (y m : number) : jsstring :=
  match y, m with
  | Int yy, Int mm =>
      if ((100 <=? yy) && (yy <=? 9999) && (0 <=? mm) && (mm <=? 11))%Z
      then nth (Z.to_nat mm)
             (List.map js ["ene"; "feb"; "mar"; "abr"; "may"; "jun"; "jul";
                           "ago"; "sept"; "oct"; "nov"; "dic"]%string) []
           +++ js " " +++ String_of_Z yy
      else js "Invalid Date"
  | _, _ => js "Invalid Date"
  end.

(** Two strings are equal up to case when their lowercase forms agree. *)
Definition eq_ignore_case (s t : jsstring) : Prop :=
  toLowerCase s = toLowerCase t.

(* ------------------------------------------------------------------ *)
(** * Types of the REST payloads *)
(* ------------------------------------------------------------------ *)

(** The interfaces that the module declares.  The helpers take values of
    these types; the fetch functions cast the parsed body to them without
    a check, and so return parsed JSON of any shape. *)

(** Values of type [unknown]. *)
#[local] Unset Elimination Schemes.
Inductive unknown :=
| UNull
| UBool (b : bool)
| UNumber (z : Z)
| UString (s : jsstring)
| UArray (l : list unknown)
| UObject (fields : list (jsstring * unknown)).
#[local] Set Elimination Schemes.

Record Rendered := { rendered : jsstring }.

(** An entry of [_embedded['wp:featuredmedia']].  The interface declares
    [source_url] a string; the accessor guards against its absence, so the
    field is optional here. *)
Record Media := { source_url : option jsstring; alt_text : jsstring }.

Record Term := { term_id : Z; term_name : jsstring; term_slug : jsstring }.

Record Embedded := {
  wp_featuredmedia : option (list Media);
  wp_term : option (list (list Term))
}.

Record WPPost := {
  post_id : Z;
  slug : jsstring;
  date : jsstring;
  title : Rendered;
  excerpt : Rendered;
  content : Rendered;
  _embedded : option Embedded;
  acf : option (list (jsstring * unknown))
}.

Record WPCategory := {
  category_id : Z;
  category_name : jsstring;
  category_slug : jsstring;
  count : Z
}.

Record ProjectAcf := {
  project_url : jsstring;
  github_url : jsstring;
  project_description : jsstring;
  project_technologies : jsstring;
  featured_image : jsstring;
  year : jsstring;
  project_category : jsstring
}.

Record Project := {
  project_id : Z;
  project_title : Rendered;
  project_acf : ProjectAcf
}.

(** [category] is declared a string; [groupSkillsByCategory] guards
    against [null] and [undefined], which [None] stands for. *)
Record SkillAcf := {
  level : Z;
  category : option jsstring;
  icon : jsstring
}.

Record Skill := {
  skill_id : Z;
  skill_title : Rendered;
  skill_acf : SkillAcf
}.

Record ExperienceAcf := {
  company : jsstring;
  position : jsstring;
  start_date : jsstring;
  end_date : jsstring;
  description : jsstring;
  technologies : jsstring;
  company_url : jsstring
}.

Record Experience := {
  experience_id : Z;
  experience_title : Rendered;
  experience_acf : ExperienceAcf
}.

(** ** getFeaturedImage *)

(** [x?.f]: the access is skipped when [x] is [null] or [undefined]. *)
Definition opt_chain {A B} (x : option A) (f : A -> option B) : option B :=
  match x with Some a => f a | None => None end.

(** [x ?? d] *)
Definition nullish {A} (x : option A) (d : A) : A :=
  match x with Some a => a | None => d end.

Notation "x ?. f" := (opt_chain x f) (at level 50, left associativity).
Notation "x ?? d" := (nullish x d) (at level 55, left associativity).

Definition getFeaturedImage (post : WPPost) : jsstring :=
  (_embedded post ?. wp_featuredmedia ?. (fun l => nth_error l 0)
     ?. source_url) ?? empty.

(* ------------------------------------------------------------------ *)
(** * Exceptions and plain objects *)
(* ------------------------------------------------------------------ *)

Inductive Exception :=
| JsError (message : jsstring)   (* new Error(message) *)
| JsTypeError                    (* raised by the engine or by fetch *)
| JsSyntaxError.                 (* raised by the JSON decoder *)

Inductive Completion (A : Type) :=
| Normal (a : A)
| Throw (e : Exception).

Arguments Normal {A} a.
Arguments Throw {A} e.

(** An object created by the literal [{}]: its own properties, in order of
    creation, and the properties it inherits from [Object.prototype]. *)
Module Obj.

Definition t (V : Type) := list (jsstring * V).

Definition prototype_properties : list jsstring :=
  List.map js
    ["constructor"; "hasOwnProperty"; "isPrototypeOf";
     "propertyIsEnumerable"; "toLocaleString"; "toString"; "valueOf";
     "__proto__"; "__defineGetter__"; "__defineSetter__";
     "__lookupGetter__"; "__lookupSetter__"]%string.

Definition inherited (k : jsstring) : bool :=
  existsb (jsstring_eqb k) prototype_properties.

Fixpoint get_own {V} (o : t V) (k : jsstring) : option V :=
  match o with
  | [] => None
  | (k', v) :: r => if jsstring_eqb k' k then Some v else get_own r k
  end.

(** Replaces the value of an own property, keeping its place. *)
Fixpoint update {V} (o : t V) (k : jsstring) (f : V -> V) : t V :=
  match o with
  | [] => []
  | (k', v) :: r =>
      if jsstring_eqb k' k then (k', f v) :: r
      else (k', v) :: update r k f
  end.

(** Creates a new own property, after the existing ones. *)
Definition define {V} (o : t V) (k : jsstring) (v : V) : t V :=
  o ++ [(k, v)].

(** Property names and values in order of creation.  (Enumeration by
    [Object.keys] and [Object.values] differs from it in one respect:
    names that are array indices come first, in numeric order.) *)
Definition created_keys {V} (o : t V) : list jsstring := List.map fst o.
Definition created_values {V} (o : t V) : list V := List.map snd o.

End Obj.

(** [arr.reduce(f, init)] with a callback that may throw. *)
Fixpoint reduce {A B} (f : B -> A -> Completion B) (l : list A) (init : B)
  : Completion B :=
  match l with
  | [] => Normal init
  | x :: r =>
      match f init x with
      | Normal acc => reduce f r acc
      | Throw e => Throw e
      end
  end.

(** ** groupSkillsByCategory *)

Definition Otros : jsstring := js "Otros".

(** The callback of the reduction.  [acc[cat]] reads the own property or,
    failing that, the inherited one; [??=] assigns the fresh array only
    when that value is [undefined].  A value inherited from
    [Object.prototype] is a function or an object without a [push] method,
    and calling it throws a [TypeError]. *)
Definition group_step (acc : Obj.t (list Skill)) (skill : Skill)
  : Completion (Obj.t (list Skill)) :=
  let cat := category (skill_acf skill) ?? Otros in
  match Obj.get_own acc cat with
  | Some _ => Normal (Obj.update acc cat (fun arr => arr ++ [skill]))
  | None =>
      if Obj.inherited cat then Throw JsTypeError
      else Normal (Obj.define acc cat [skill])
  end.

Definition groupSkillsByCategory (skills : list Skill)
  : Completion (Obj.t (list Skill)) :=
  reduce group_step skills [].

(** The label a skill is filed under. *)
Definition label_of (skill : Skill) : jsstring :=
  category (skill_acf skill) ?? Otros.

(** The skills filed under [k], in the order of the input. *)
Definition with_label (k : jsstring) (skills : list Skill) : list Skill :=
  filter (fun s => jsstring_eqb (label_of s) k) skills.

(** The elements of [l] whose key under [f] is [k], in the order of [l]. *)
Definition pick_by {A} (f : A -> jsstring) (k : jsstring) (l : list A)
  : list A :=
  filter (fun x => jsstring_eqb (f x) k) l.

(** The array stored under [k], empty when there is none. *)
Definition group_at (acc : Obj.t (list Skill)) (k : jsstring) : list Skill :=
  Obj.get_own acc k ?? [].

(** No label is the name of a property of [Object.prototype]. *)
Definition plain_labels (skills : list Skill) : bool :=
  forallb (fun s => negb (Obj.inherited (label_of s))) skills.

Definition mkSkill (id : Z) (cat : option jsstring) : Skill :=
  {| skill_id := id;
     skill_title := {| rendered := js "skill" |};
     skill_acf := {| level := 50; category := cat; icon := empty |} |}.

(* ------------------------------------------------------------------ *)
(** * The remote server and asynchronous computations *)
(* ------------------------------------------------------------------ *)

Record URL := {
  href : jsstring;
  searchParams : list (jsstring * jsstring)
}.

(** [url.searchParams.set(k, v)]: the first pair named [k] takes the value
    and the other pairs named [k] are removed; without one the pair is
    appended. *)
Fixpoint searchParams_set (ps : list (jsstring * jsstring))
  (k v : jsstring) : list (jsstring * jsstring) :=
  match ps with
  | [] => [(k, v)]
  | (k', v') :: r =>
      if jsstring_eqb k' k
      then (k, v) :: filter (fun p => negb (jsstring_eqb (fst p) k)) r
      else (k', v') :: searchParams_set r k v
  end.

Definition URL_set (u : URL) (kv : jsstring * jsstring) : URL :=
  {| href := href u;
     searchParams := searchParams_set (searchParams u) (fst kv) (snd kv) |}.

Record Request := {
  url : URL;
  headers : list (jsstring * jsstring)
}.

Record Response := {
  status : N;
  body : jsstring
}.

(** [res.ok]: the status is in the range 200-299. *)
Definition ok (res : Response) : bool :=
  (200 <=? status res) && (status res <=? 299).

(** The remote end: the response to each request, or [None] when the
    request fails below HTTP (and [fetch] rejects). *)
Definition Server := Request -> option Response.

(** An asynchronous computation runs against a server and yields the
    requests it sent, in order, and its completion. *)
Definition Async (T : Type) := Server -> list Request * Completion T.

Definition ret {T} (v : T) : Async T := fun _ => ([], Normal v).

Definition throw {T} (e : Exception) : Async T := fun _ => ([], Throw e).

(** [await] *)
Definition bind {A B} (c : Async A) (k : A -> Async B) : Async B :=
  fun srv =>
    match c srv with
    | (sent, Normal a) =>
        let (sent', r) := k a srv in (sent ++ sent', r)
    | (sent, Throw e) => (sent, Throw e)
    end.

Notation "x <- c ;; k" := (bind c (fun x => k))
  (at level 61, c at next level, right associativity).

Definition fetch (req : Request) : Async Response :=
  fun srv =>
    ([req], match srv req with
            | Some res => Normal res
            | None => Throw JsTypeError
            end).

(** A completed computation, as an asynchronous one. *)
Definition lift {T} (c : Completion T) : Async T := fun _ => ([], c).

(** Parsed JSON, the values [res.json()] resolves to.  The number
    [JNumber s m e] is [m] times two to the [e], negative when [s] is
    set; the members of an object have distinct names. *)
#[local] Unset Elimination Schemes.
Inductive JSON :=
| JNull
| JBool (b : bool)
| JNumber (negative : bool) (mantissa : N) (exponent : Z)
| JString (s : jsstring)
| JArray (items : list JSON)
| JObject (members : list (jsstring * JSON)).
#[local] Set Elimination Schemes.

(** The functions of the platform that the module calls besides [fetch].

    [new_URL s] is [new URL(s)]: [None] when the constructor throws its
    [TypeError] (the string is not an absolute URL), otherwise the parsed
    URL, in normal form, [href] holding it without its query and
    [searchParams] the pairs of its query.

    [JSON_parse b] is the parsing of a response body by [res.json()]:
    [None] when it rejects with a [SyntaxError]. *)
Class Platform := {
  new_URL : jsstring -> option URL;
  JSON_parse : jsstring -> option JSON
}.

(** [res.json() as Promise<T>]: the cast is not checked, the parsed value
    is returned whatever its shape. *)
Definition res_json `{Platform} (res : Response) : Async JSON :=
  match JSON_parse (body res) with
  | Some v => ret v
  | None => throw JsSyntaxError
  end.

Definition requests {T} (c : Async T) (srv : Server) : list Request :=
  fst (c srv).

Definition outcome {T} (c : Async T) (srv : Server) : Completion T :=
  snd (c srv).

(* ------------------------------------------------------------------ *)
(** * The fetch functions *)
(* ------------------------------------------------------------------ *)

Section Facade.

(** [import.meta.env.WP_API_URL], [None] when unset. *)
Variable WP_API_URL : option jsstring.

Definition BASE : jsstring := WP_API_URL ?? js "https://tu-sitio.com/wp-json".

Context {platform : Platform}.

Definition error_message (status : N) (endpoint : jsstring) : jsstring :=
  js "WP API Error " +++ String_of_N status +++ js ": " +++ endpoint.

(** The request that [wpFetch] sends once the URL is parsed; [params]
    lists the entries of the parameter object in the order of its
    literal. *)
Definition wp_request (url : URL)
  (params : option (list (jsstring * jsstring))) : Request :=
  let url :=
    match params with
    | Some ps => fold_left URL_set ps url
    | None => url
    end in
  {| url := url;
     headers := [(js "Content-Type", js "application/json")] |}.

Definition wpFetch (endpoint : jsstring)
  (params : option (list (jsstring * jsstring))) : Async JSON :=
  match new_URL (BASE +++ endpoint) with
  | None => throw JsTypeError
  | Some url =>
      res <- fetch (wp_request url params) ;;
      if negb (ok res)
      then throw (JsError (error_message (status res) endpoint))
      else res_json res
  end.

(** Default parameter values apply to a missing ([None]) argument.  The
    arguments are integers; [String] prints them as the platform does when
    they are in the exact range. *)
Definition getPosts (perPage page : option Z) : Async JSON :=
  let perPage := (perPage ?? 10)%Z in
  let page := (page ?? 1)%Z in
  wpFetch (js "/wp/v2/posts")
    (Some [(js "per_page", String_of_Z perPage);
           (js "page", String_of_Z page);
           (js "_embed", js "1")]).

(** [v[0]] for a value [v] other than [null]; [None] is [undefined]. *)
Definition element0 (v : JSON) : option JSON :=
  match v with
  | JArray items => nth_error items 0
  | JObject members =>
      option_map snd
        (find (fun m => jsstring_eqb (fst m) (js "0")) members)
  | JString (c :: _) => Some (JString [c])
  | _ => None
  end.

(** [posts[0] ?? null]: reading a property of [null] throws. *)
Definition first_or_null (posts : JSON) : Completion JSON :=
  match posts with
  | JNull => Throw JsTypeError
  | _ => Normal (element0 posts ?? JNull)
  end.

Definition getPostBySlug (slug : jsstring) : Async JSON :=
  posts <- wpFetch (js "/wp/v2/posts")
             (Some [(js "slug", slug); (js "_embed", js "1")]) ;;
  lift (first_or_null posts).

Definition getLatestPosts (count : option Z) : Async JSON :=
  let count := (count ?? 3)%Z in
  getPosts (Some count) (Some 1%Z).

Definition getCategories : Async JSON :=
  wpFetch (js "/wp/v2/categories") (Some [(js "hide_empty", js "true")]).

Definition getProjects : Async JSON :=
  wpFetch (js "/wp/v2/portfolio")
    (Some [(js "per_page", js "100");
           (js "_fields", js "id,title,acf");
           (js "acf_format", js "standard")]).

Definition getSkills : Async JSON :=
  wpFetch (js "/wp/v2/skill")
    (Some [(js "per_page", js "100");
           (js "_fields", js "id,title,acf")]).

Definition getExperiences : Async JSON :=
  data <- wpFetch (js "/wp/v2/experience")
            (Some [(js "per_page", js "100");
                   (js "_fields", js "id,title,acf");
                   (js "orderby", js "date");
                   (js "order", js "desc")]) ;;
  ret data.

(** The fetch functions of the module, with their arguments. *)
Inductive Operation :=
| GetPosts (perPage page : option Z)
| GetPostBySlug (slug : jsstring)
| GetLatestPosts (count : option Z)
| GetCategories
| GetProjects
| GetSkills
| GetExperiences.

Definition run (op : Operation) : Async JSON :=
  match op with
  | GetPosts perPage page => getPosts perPage page
  | GetPostBySlug slug => getPostBySlug slug
  | GetLatestPosts count => getLatestPosts count
  | GetCategories => getCategories
  | GetProjects => getProjects
  | GetSkills => getSkills
  | GetExperiences => getExperiences
  end.

(** The endpoint path each function requests. *)
Definition endpoint_of (op : Operation) : jsstring :=
  match op with
  | GetPosts _ _ | GetPostBySlug _ | GetLatestPosts _ => js "/wp/v2/posts"
  | GetCategories => js "/wp/v2/categories"
  | GetProjects => js "/wp/v2/portfolio"
  | GetSkills => js "/wp/v2/skill"
  | GetExperiences => js "/wp/v2/experience"
  end.

(** What each function does with the parsed body. *)
Definition returned (op : Operation) (v : JSON) : Completion JSON :=
  match op with
  | GetPostBySlug _ => first_or_null v
  | _ => Normal v
  end.

End Facade.

(** The parameters that [getExperiences] passes. *)
Definition experience_params : list (jsstring * jsstring) :=
  [(js "per_page", js "100");
   (js "_fields", js "id,title,acf");
   (js "orderby", js "date");
   (js "order", js "desc")].

(** ** Sample data, to run the functions on *)

Definition sample_media : Media :=
  {| source_url := Some (js "https://cdn.example.org/cover.png");
     alt_text := js "cover" |}.

Definition mkPost (embedded : option Embedded) : WPPost :=
  {| post_id := 7;
     slug := js "hola-mundo";
     date := js "2024-01-15T10:00:00";
     title := {| rendered := js "Hola" |};
     excerpt := {| rendered := js "<p>Hola</p>" |};
     content := {| rendered := js "<p>Hola mundo</p>" |};
     _embedded := embedded;
     acf := None |}.

Definition sample_post : WPPost :=
  mkPost (Some {| wp_featuredmedia := Some [sample_media];
                  wp_term := None |}).

(** A server that answers every request with the same status and body. *)
Definition constant_server (status : N) (body : jsstring) : Server :=
  fun _ => Some {| status := status; body := body |}.

Definition QUOTE : code_unit := 34.

(** The body [[{"id":7}]] and its parsed form. *)
Definition one_post_body : jsstring :=
  js "[{" +++ [QUOTE] +++ js "id" +++ [QUOTE] +++ js ":7}]".

Definition one_post : JSON := JObject [(js "id", JNumber false 7 0)].

Definition is_lower_letter (c : code_unit) : bool := (97 <=? c) && (c <=? 122).

(** A sample of the platform.  Its URL constructor knows the endpoints
    under the default base only (lower-case letters after
    [https://tu-sitio.com/wp-json/wp/v2/], which are in normal form and
    have no query) and refuses every other string; its JSON parser knows
    five bodies and refuses every other. *)
Definition sample_platform : Platform :=
  {| new_URL := fun s =>
       if starts_with (js "https://tu-sitio.com/wp-json/wp/v2/") s
          && forallb is_lower_letter (skipn 35 s)
          && negb (Nat.eqb (List.length s) 35)
       then Some {| href := s; searchParams := [] |}
       else None;
     JSON_parse := fun b =>
       if jsstring_eqb b (js "[]") then Some (JArray [])
       else if jsstring_eqb b one_post_body then Some (JArray [one_post])
       else if jsstring_eqb b (js "{}") then Some (JObject [])
       else if jsstring_eqb b (js "[null]") then Some (JArray [JNull])
       else if jsstring_eqb b (js "null") then Some JNull
       else None |}.

(** The module with the base URL unset, on the sample platform. *)
Definition sample_run (op : Operation) : Async JSON :=
  @run None sample_platform op.

(** [url.searchParams.get(k)]: the value of the first pair named [k]. *)
Definition searchParams_get (ps : list (jsstring * jsstring))
  (k : jsstring) : option jsstring :=
  option_map snd (find (fun p => jsstring_eqb (fst p) k) ps).

(* ------------------------------------------------------------------ *)
(** * Notions used to state further properties *)
(* ------------------------------------------------------------------ *)

(** [subsequence s t]: [s] is [t] with some code units deleted. *)
Inductive subsequence : jsstring -> jsstring -> Prop :=
| sub_nil : subsequence [] []
| sub_keep c s t : subsequence s t -> subsequence (c :: s) (c :: t)
| sub_drop c s t : subsequence s t -> subsequence s (c :: t).

(** Neither end of the string is white space. *)
Definition ends_trimmed (s : jsstring) : bool :=
  match s with
  | [] => true
  | c :: _ => negb (is_white_space c) && negb (is_white_space (last s c))
  end.

(** A token as [parseTechs] returns them: not empty, without comma, and
    without white space at its ends. *)
Definition clean_token (w : jsstring) : Prop :=
  w <> [] /\ ~ In COMMA w /\ ends_trimmed w = true.

(** The names of [l] not in [seen], each once, in order of first
    appearance. *)
Fixpoint first_occurrences (seen l : list jsstring) : list jsstring :=
  match l with
  | [] => []
  | k :: r =>
      if existsb (jsstring_eqb k) seen then first_occurrences seen r
      else k :: first_occurrences (seen ++ [k]) r
  end.

(** A server that cannot be reached. *)
Definition unreachable_server : Server := fun _ => None.

(** Integers that a number holds exactly and that [String] prints as
    plain decimal digits. *)
Definition safe_integer (z : Z) : Prop :=
  (- 9007199254740991 <= z <= 9007199254740991)%Z.

(* ------------------------------------------------------------------ *)
(** * Properties of the string helpers *)
(* ------------------------------------------------------------------ *)

Section StringFacts.

Lemma jsstring_eqb_eq s t : jsstring_eqb s t = true <-> s = t.
Proof.
unfold jsstring_eqb. destruct (list_eq_dec N.eq_dec s t); split; congruence.
Qed.

Lemma jsstring_eqb_refl s : jsstring_eqb s s = true.
Proof. now apply jsstring_eqb_eq. Qed.

Lemma trimStart_suffix s : exists t, s = t ++ trimStart s.
Proof.
  induction s as [|c r [t Ht]]; simpl.
  - now exists [].
  - destruct (is_white_space c).
    + exists (c :: t). simpl. now f_equal.
    + now exists [].
Qed.

Lemma trimEnd_prefix s : exists t, s = trimEnd s ++ t.
Proof.
  unfold trimEnd. destruct (trimStart_suffix (rev s)) as [t Ht].
  exists (rev t). rewrite <- rev_app_distr, <- Ht. now rewrite rev_involutive.
Qed.

Lemma trimStart_idem s : trimStart (trimStart s) = trimStart s.
Proof.
  induction s as [|c r IH]; simpl; [reflexivity|].
  destruct (is_white_space c) eqn:E; [exact IH|].
  simpl. now rewrite E.
Qed.

Lemma trimEnd_idem s : trimEnd (trimEnd s) = trimEnd s.
Proof.
  unfold trimEnd. now rewrite rev_involutive, trimStart_idem.
Qed.

Lemma trimStart_snoc l c :
  is_white_space c = false -> trimStart (l ++ [c]) = trimStart l ++ [c].
Proof.
  intros Hc. induction l as [|d l IH]; simpl.
  - now rewrite Hc.
  - destruct (is_white_space d); [exact IH | reflexivity].
Qed.

Lemma trimEnd_cons c r :
  is_white_space c = false -> trimEnd (c :: r) = c :: trimEnd r.
Proof.
  intros Hc. unfold trimEnd. simpl.
  rewrite trimStart_snoc by exact Hc.
  now rewrite rev_app_distr.
Qed.

(** The head of a string trimmed at the start is not white space. *)
Lemma trimStart_head s c r :
  trimStart s = c :: r -> is_white_space c = false.
Proof.
  induction s as [|d s IH]; simpl; [discriminate|].
  destruct (is_white_space d) eqn:E; [exact IH|].
  intros H. injection H as -> _. exact E.
Qed.

Lemma trimStart_trimEnd_trimStart s :
  trimStart (trimEnd (trimStart s)) = trimEnd (trimStart s).
Proof.
  destruct (trimStart s) as [|c r] eqn:E; [reflexivity|].
  pose proof (trimStart_head _ E) as Hc.
  rewrite trimEnd_cons by exact Hc. simpl. now rewrite Hc.
Qed.

Lemma trim_idem s : trim (trim s) = trim s.
Proof.
  unfold trim. now rewrite trimStart_trimEnd_trimStart, trimEnd_idem.
Qed.

(** The ends of a trimmed string are not white space. *)
Lemma trim_head s c r : trim s = c :: r -> is_white_space c = false.
Proof.
  intros H. apply (@trimStart_head (trim s) c r).
  unfold trim in *. now rewrite trimStart_trimEnd_trimStart.
Qed.

Lemma trim_last s r c : trim s = r ++ [c] -> is_white_space c = false.
Proof.
  unfold trim, trimEnd. intros H.
  apply (f_equal (@rev _)) in H.
  rewrite rev_involutive, rev_app_distr in H. simpl in H.
  exact (trimStart_head _ H).
Qed.

End StringFacts.

Section TagFacts.

(** The substitution only deletes: a [>] in the output was in the input. *)
Lemma replace_skip_GT s :
  (has_GT (replace_tags s) = true -> has_GT s = true) /\
  (has_GT (skip_tag s) = true -> has_GT s = true).
Proof.
  unfold has_GT.
  induction s as [|c r [IHr IHs]]; simpl; [now split|].
  split.
  - destruct ((c =? LT) && existsb (N.eqb GT) r) eqn:E.
    + intros H. rewrite (IHs H). apply orb_true_r.
    + simpl. intros H. apply orb_true_iff in H as [H|H].
      * now rewrite H.
      * rewrite (IHr H). apply orb_true_r.
  - destruct (c =? GT) eqn:E.
    + intros H. rewrite (IHr H). apply orb_true_r.
    + intros H. rewrite (IHs H). apply orb_true_r.
Qed.

Lemma replace_skip_tag_free s :
  tag_free (replace_tags s) = true /\ tag_free (skip_tag s) = true.
Proof.
  induction s as [|c r [IHr IHs]]; simpl; [now split|].
  split.
  - destruct ((c =? LT) && existsb (N.eqb GT) r) eqn:E; [exact IHs|].
    simpl. rewrite IHr, andb_true_r.
    apply negb_true_iff.
    destruct (c =? LT); [|reflexivity]. simpl in *.
    destruct (existsb (N.eqb GT) (replace_tags r)) eqn:G; [|reflexivity].
    apply (proj1 (replace_skip_GT r)) in G. unfold has_GT in G. congruence.
  - destruct (c =? GT); assumption.
Qed.

Lemma replace_tags_tag_free s : tag_free (replace_tags s) = true.
Proof. apply replace_skip_tag_free. Qed.

(** Without a tag the substitution changes nothing. *)
Lemma replace_tags_fixed s : tag_free s = true -> replace_tags s = s.
Proof.
  induction s as [|c r IH]; simpl; [reflexivity|].
  intros H. apply andb_true_iff in H as [H1 H2].
  apply negb_true_iff in H1. rewrite H1. now rewrite IH.
Qed.

Lemma tag_free_app_l a b : tag_free (a ++ b) = true -> tag_free a = true.
Proof.
  induction a as [|c a IH]; simpl; [reflexivity|].
  intros H. apply andb_true_iff in H as [H1 H2].
  rewrite (IH H2), andb_true_r.
  apply negb_true_iff. apply negb_true_iff in H1.
  destruct (c =? LT); [|reflexivity]. simpl in *.
  rewrite existsb_app in H1. now apply orb_false_iff in H1.
Qed.

Lemma tag_free_app_r a b : tag_free (a ++ b) = true -> tag_free b = true.
Proof.
  induction a as [|c a IH]; simpl; [trivial|].
  intros H. apply andb_true_iff in H as [_ H2]. auto.
Qed.

Lemma tag_free_trim s : tag_free s = true -> tag_free (trim s) = true.
Proof.
  intros H. unfold trim.
  destruct (trimStart_suffix s) as [t Ht].
  destruct (trimEnd_prefix (trimStart s)) as [u Hu].
  rewrite Ht in H. apply tag_free_app_r in H.
  rewrite Hu in H. now apply tag_free_app_l in H.
Qed.

(** [skip_tag] runs to the first [>] and resumes the scan after it. *)
Lemma skip_tag_split r :
  has_GT r = true ->
  exists t r', r = t ++ GT :: r' /\ no_GT t = true
               /\ skip_tag r = replace_tags r'.
Proof.
  unfold has_GT.
  induction r as [|c r IH]; [discriminate|].
  cbn [existsb skip_tag].
  destruct (c =? GT) eqn:E.
  - intros _. apply N.eqb_eq in E. subst c.
    exists [], r. now repeat split.
  - rewrite N.eqb_sym, E. cbn [orb]. intros H.
    destruct (IH H) as (t & r' & -> & Ht & Hs).
    exists (c :: t), r'. repeat split; auto.
    simpl. now rewrite E, Ht.
Qed.

Lemma no_GT_has_GT r : has_GT r = false -> no_GT r = true.
Proof.
  unfold has_GT, no_GT. induction r as [|c r IH]; [reflexivity|].
  cbn [existsb forallb].
  intros H. apply orb_false_iff in H as [H1 H2].
  rewrite N.eqb_sym, H1. cbn [negb andb]. auto.
Qed.

Lemma replace_tags_removed_bounded n :
  forall s : jsstring,
    (List.length s <= n)%nat -> tags_removed s (replace_tags s).
Proof.
  induction n as [|n IH]; intros [|c r] Hlen; simpl in *;
    try constructor; try lia.
  destruct (c =? LT) eqn:E; simpl.
  - apply N.eqb_eq in E. subst c.
    destruct (existsb (N.eqb GT) r) eqn:G.
    + destruct (skip_tag_split r G) as (t & r' & -> & Ht & ->).
      apply removed_tag; [exact Ht|].
      apply IH. rewrite length_app in Hlen. simpl in Hlen. lia.
    + apply removed_open; [now apply no_GT_has_GT|].
      apply IH. lia.
  - apply removed_keep; [now apply N.eqb_neq|].
    apply IH. lia.
Qed.

Lemma replace_tags_removed s : tags_removed s (replace_tags s).
Proof. now apply (@replace_tags_removed_bounded (List.length s)). Qed.

(** The pattern leaves no choice: the relation has one output. *)
Lemma tags_removed_functional s o :
  tags_removed s o -> o = replace_tags s.
Proof.
  induction 1 as [|t r o Ht Hr IH|r o Hr Ho IH|c r o Hc Hr IH];
    cbn [replace_tags].
  - reflexivity.
  - assert (G : existsb (N.eqb GT) (t ++ GT :: r) = true).
    { apply existsb_exists. exists GT. split; [|apply N.eqb_refl].
      apply in_or_app. right. now left. }
    rewrite G, N.eqb_refl. cbn [andb]. rewrite IH. clear - Ht.
    unfold no_GT in Ht.
    induction t as [|c t IHt]; cbn [app skip_tag forallb] in *.
    + now rewrite N.eqb_refl.
    + apply andb_true_iff in Ht as [H1 H2].
      apply negb_true_iff in H1. rewrite H1. auto.
  - assert (G : existsb (N.eqb GT) r = false).
    { clear - Hr. unfold no_GT in Hr.
      induction r as [|c r IHr]; [reflexivity|].
      cbn [existsb forallb] in *.
      apply andb_true_iff in Hr as [H1 H2]. apply negb_true_iff in H1.
      rewrite N.eqb_sym, H1. cbn [orb]. auto. }
    rewrite G, andb_false_r. now rewrite IH.
  - apply N.eqb_neq in Hc. rewrite Hc. cbn [andb]. now rewrite IH.
Qed.

End TagFacts.

Section SplitFacts.

Variable sep : code_unit.

Lemma split_nonempty s : split sep s <> [].
Proof.
  destruct s as [|c r]; cbn [split]; [discriminate|].
  destruct (c =? sep); [discriminate|].
  destruct (split sep r); discriminate.
Qed.

Lemma join_cons_unit c w ws :
  join sep ((c :: w) :: ws) = c :: join sep (w :: ws).
Proof. destruct ws; reflexivity. Qed.

(** Joining the pieces with the separator gives the string back. *)
Lemma join_split s : join sep (split sep s) = s.
Proof.
  induction s as [|c r IH]; cbn [split]; [reflexivity|].
  destruct (c =? sep) eqn:E.
  - apply N.eqb_eq in E. subst c.
    pose proof (split_nonempty r) as Hne.
    destruct (split sep r) as [|w ws]; [contradiction|].
    change (join sep ([] :: w :: ws))
      with ([] ++ sep :: join sep (w :: ws)).
    now rewrite IH.
  - pose proof (split_nonempty r) as Hne.
    destruct (split sep r) as [|w ws]; [contradiction|].
    rewrite join_cons_unit. f_equal. exact IH.
Qed.

(** No piece contains the separator. *)
Lemma split_pieces s : Forall (fun w => ~ In sep w) (split sep s).
Proof.
  induction s as [|c r IH]; cbn [split].
  - constructor; [intros []|constructor].
  - destruct (c =? sep) eqn:E.
    + constructor; [intros []|exact IH].
    + destruct (split sep r) as [|w ws].
      * constructor; [|constructor].
        intros [H|[]]. subst c. now rewrite N.eqb_refl in E.
      * inversion IH as [|? ? Hw Hws]; subst.
        constructor; [|exact Hws].
        intros [H|H]; [|now apply Hw].
        subst c. now rewrite N.eqb_refl in E.
Qed.

End SplitFacts.

(* ------------------------------------------------------------------ *)
(** * The formatting helpers meet their descriptions *)
(* ------------------------------------------------------------------ *)

(** C5. [parseTechs] splits its input on commas (the tokens joined by
    commas give the input back and none contains a comma), trims each
    token and drops the empty ones; on the sample list it returns
    React, Node, TypeScript; on [null], [undefined] and the empty string
    it returns the empty sequence. *)
Theorem parseTechs_split_trim_filter :
  (forall s, exists tokens,
      join COMMA tokens = s /\
      Forall (fun w => ~ In COMMA w) tokens /\
      parseTechs (Some s) = filter truthy (List.map trim tokens)) /\
  parseTechs (Some (js "React, Node ,  ,TypeScript"))
    = [js "React"; js "Node"; js "TypeScript"] /\
  parseTechs None = [] /\
  parseTechs (Some (empty)) = [].
Proof.
  split; [|repeat split].
  intros s. exists (split COMMA s).
  split; [apply join_split|]. split; [apply split_pieces|reflexivity].
Qed.

(** Every token returned is non-empty and trimmed. *)
Lemma parseTechs_tokens s w :
  In w (parseTechs s) -> w <> [] /\ trim w = w.
Proof.
  destruct s as [s|]; cbn [parseTechs]; [|intros []].
  intros H. apply filter_In in H as [H1 H2].
  apply in_map_iff in H1 as (t & <- & _).
  split; [|apply trim_idem].
  intros E. now rewrite E in H2.
Qed.

(** C8. [stripHtml] removes every tag by one left-to-right global
    substitution of the tag pattern (no tag is left in its result) and
    then trims the white space at both ends; on the sample markup it
    returns "Hello World". *)
Theorem stripHtml_removes_tags_then_trims :
  (forall html, exists o,
      tags_removed html o /\ tag_free o = true /\ stripHtml html = trim o) /\
  stripHtml (js "<p>Hello <b>World</b></p>") = js "Hello World".
Proof.
  split; [|reflexivity].
  intros html. exists (replace_tags html).
  split; [apply replace_tags_removed|].
  split; [apply replace_tags_tag_free|reflexivity].
Qed.

(** C10. [stripHtml] is idempotent: a second pass finds no tag to remove
    and no white space to trim. *)
Theorem stripHtml_idempotent (s : jsstring) :
  stripHtml (stripHtml s) = stripHtml s.
Proof.
  unfold stripHtml.
  rewrite (@replace_tags_fixed (trim (replace_tags s))).
  - apply trim_idem.
  - apply tag_free_trim, replace_tags_tag_free.
Qed.

(** C6. [formatDate] returns the empty string on the empty string;
    returns "Presente" for every input equal to "presente" up to case, in
    particular for "presente" and "Presente"; and for "2024-01" returns
    the es-ES rendering, with short month and numeric year, of the date
    whose year is 2024 and whose month index is 0 (January), so that it
    contains whatever short form of January and whatever year digits that
    rendering contains. *)
Theorem formatDate_cases (render : number -> number -> jsstring) :
  formatDate render (empty) = empty /\
  (forall s, eq_ignore_case s (js "presente") ->
             formatDate render s = js "Presente") /\
  formatDate render (js "presente") = js "Presente" /\
  formatDate render (js "Presente") = js "Presente" /\
  formatDate render (js "2024-01") = render (Int 2024) (Int 0) /\
  (forall january,
      includes (render (Int 2024) (Int 0)) january = true ->
      includes (render (Int 2024) (Int 0)) (js "2024") = true ->
      includes (formatDate render (js "2024-01")) january = true /\
      includes (formatDate render (js "2024-01")) (js "2024") = true).
Proof.
  assert (P : forall s, eq_ignore_case s (js "presente") ->
                        formatDate render s = js "Presente").
  { intros s H. unfold eq_ignore_case in H. unfold formatDate.
    destruct s as [|c r]; [discriminate H|].
    cbn [truthy negb].
    change (toLowerCase (js "presente")) with (js "presente") in H.
    now rewrite H, jsstring_eqb_refl. }
  assert (D : formatDate render (js "2024-01") = render (Int 2024) (Int 0))
    by reflexivity.
  split; [reflexivity|]. split; [exact P|].
  split; [now apply P|]. split; [now apply P|].
  split; [exact D|].
  intros january H1 H2. rewrite D. now split.
Qed.

Lemma formatDate_cases_witness :
  eq_ignore_case (js "PRESENTE") (js "presente") /\
  formatDate cldr_esES (js "PRESENTE") = js "Presente" /\
  formatDate cldr_esES (js "2024-01") = js "ene 2024" /\
  includes (formatDate cldr_esES (js "2024-01")) (js "ene") = true /\
  includes (formatDate cldr_esES (js "2024-01")) (js "2024") = true.
Proof.
  destruct (formatDate_cases cldr_esES) as (_ & P & _ & _ & D & I).
  split; [reflexivity|].
  split; [apply P; reflexivity|].
  split; [rewrite D; reflexivity|].
  apply (I (js "ene")); reflexivity.
Defined.

(** C9. [getFeaturedImage] returns the source URL of the first entry of
    the embedded featured media when there is one, and the empty string
    when the embedded structure, the media list, its first entry or that
    entry's source URL is absent; being a total function it never
    fails. *)
Theorem getFeaturedImage_first_or_empty (post : WPPost) :
  (forall e m rest u,
      _embedded post = Some e ->
      wp_featuredmedia e = Some (m :: rest) ->
      source_url m = Some u ->
      getFeaturedImage post = u) /\
  (_embedded post = None -> getFeaturedImage post = empty) /\
  (forall e,
      _embedded post = Some e ->
      wp_featuredmedia e = None ->
      getFeaturedImage post = empty) /\
  (forall e,
      _embedded post = Some e ->
      wp_featuredmedia e = Some [] ->
      getFeaturedImage post = empty) /\
  (forall e m rest,
      _embedded post = Some e ->
      wp_featuredmedia e = Some (m :: rest) ->
      source_url m = None ->
      getFeaturedImage post = empty).
Proof.
  unfold getFeaturedImage.
  repeat split; intros;
    repeat match goal with
           | H : _ = _ |- _ =>
               rewrite H; clear H; cbn [opt_chain nullish nth_error]
           end; reflexivity.
Qed.

Lemma getFeaturedImage_first_or_empty_witness :
  getFeaturedImage sample_post = js "https://cdn.example.org/cover.png" /\
  getFeaturedImage (mkPost None) = empty /\
  getFeaturedImage
    (mkPost (Some {| wp_featuredmedia := None; wp_term := None |})) = empty /\
  getFeaturedImage
    (mkPost (Some {| wp_featuredmedia := Some []; wp_term := None |})) = empty /\
  getFeaturedImage
    (mkPost (Some {| wp_featuredmedia :=
                       Some [{| source_url := None; alt_text := empty |}];
                     wp_term := None |})) = empty.
Proof.
  split.
  { eapply (proj1 (getFeaturedImage_first_or_empty sample_post));
      reflexivity. }
  split.
  { apply (proj1 (proj2 (getFeaturedImage_first_or_empty (mkPost None)))).
    reflexivity. }
  split.
  { eapply (proj1 (proj2 (proj2 (getFeaturedImage_first_or_empty _))));
      reflexivity. }
  split.
  { eapply (proj1 (proj2 (proj2 (proj2
              (getFeaturedImage_first_or_empty _)))));
      reflexivity. }
  eapply (proj2 (proj2 (proj2 (proj2 (getFeaturedImage_first_or_empty _)))));
    reflexivity.
Defined.

(* ------------------------------------------------------------------ *)
(** * Properties of the fetch functions *)
(* ------------------------------------------------------------------ *)

Section FacadeFacts.

Variable env : option jsstring.

Context {platform : Platform}.

(** Without a parsed URL nothing is sent. *)
Lemma wpFetch_invalid endpoint params srv :
  new_URL (BASE env +++ endpoint) = None ->
  wpFetch env endpoint params srv = ([], Throw JsTypeError).
Proof. intros H. unfold wpFetch. now rewrite H. Qed.

(** With one, [wpFetch] sends one request, whatever the server answers. *)
Lemma wpFetch_requests endpoint params srv u :
  new_URL (BASE env +++ endpoint) = Some u ->
  requests (wpFetch env endpoint params) srv = [wp_request u params].
Proof.
  intros H. unfold requests, wpFetch. rewrite H.
  cbv beta delta [bind fetch].
  destruct (srv _) as [res|]; [|reflexivity].
  destruct (negb (ok res)); [reflexivity|].
  unfold res_json. destruct (JSON_parse _); reflexivity.
Qed.

Lemma wpFetch_unreachable endpoint params srv u :
  new_URL (BASE env +++ endpoint) = Some u ->
  srv (wp_request u params) = None ->
  outcome (wpFetch env endpoint params) srv = Throw JsTypeError.
Proof.
  intros H Hres. unfold outcome, wpFetch. rewrite H.
  cbv beta delta [bind fetch]. now rewrite Hres.
Qed.

Lemma wpFetch_rejected endpoint params srv u res :
  new_URL (BASE env +++ endpoint) = Some u ->
  srv (wp_request u params) = Some res ->
  ok res = false ->
  outcome (wpFetch env endpoint params) srv
  = Throw (JsError (error_message (status res) endpoint)).
Proof.
  intros H Hres Hok. unfold outcome, wpFetch. rewrite H.
  cbv beta delta [bind fetch]. now rewrite Hres, Hok.
Qed.

Lemma wpFetch_decoded endpoint params srv u res :
  new_URL (BASE env +++ endpoint) = Some u ->
  srv (wp_request u params) = Some res ->
  ok res = true ->
  outcome (wpFetch env endpoint params) srv
  = match JSON_parse (body res) with
    | Some v => Normal v
    | None => Throw JsSyntaxError
    end.
Proof.
  intros H Hres Hok. unfold outcome, wpFetch. rewrite H.
  cbv beta delta [bind fetch]. rewrite Hres, Hok. cbn [negb].
  unfold res_json. destruct (JSON_parse _); reflexivity.
Qed.

(** Every function of the module is one [wpFetch] followed by a step
    that sends nothing. *)
Lemma run_shape (op : Operation) :
  exists params,
    forall srv,
      requests (run env op) srv
      = requests (wpFetch env (endpoint_of op) params) srv /\
      outcome (run env op) srv
      = match outcome (wpFetch env (endpoint_of op) params) srv with
        | Normal v => returned op v
        | Throw e => Throw e
        end.
Proof.
  destruct op; cbn [run endpoint_of returned];
    unfold requests, outcome, getPosts, getPostBySlug, getLatestPosts,
      getPosts, getCategories, getProjects, getSkills, getExperiences,
      bind, ret, lift;
    match goal with
    | |- context [wpFetch env ?e (Some ?p)] => exists (Some p)
    end;
    intros srv;
    match goal with
    | |- context [wpFetch env ?e ?p srv] =>
        destruct (wpFetch env e p srv) as [sent [v|err]];
        cbn [fst snd]; rewrite ?app_nil_r; split; reflexivity
    end.
Qed.

Lemma fold_URL_set_href ps u : href (fold_left URL_set ps u) = href u.
Proof.
  revert u. induction ps as [|kv ps IH]; intros u; cbn [fold_left].
  - reflexivity.
  - now rewrite IH.
Qed.

Lemma wp_request_href u params : href (url (wp_request u params)) = href u.
Proof.
  unfold wp_request. cbn [url].
  destruct params as [ps|]; [|reflexivity].
  now rewrite fold_URL_set_href.
Qed.

(** ** Setting search parameters *)

Lemma searchParams_get_set ps k v :
  searchParams_get (searchParams_set ps k v) k = Some v.
Proof.
  unfold searchParams_get.
  induction ps as [|[k' v'] ps IH]; cbn [searchParams_set find fst].
  - now rewrite jsstring_eqb_refl.
  - destruct (jsstring_eqb k' k) eqn:E; cbn [find fst].
    + now rewrite jsstring_eqb_refl.
    + rewrite E. exact IH.
Qed.

Lemma searchParams_get_set_other ps k v k' :
  k' <> k ->
  searchParams_get (searchParams_set ps k v) k' = searchParams_get ps k'.
Proof.
  intros Hne. unfold searchParams_get.
  assert (Hkk : jsstring_eqb k k' = false).
  { destruct (jsstring_eqb k k') eqn:E; [|reflexivity].
    apply jsstring_eqb_eq in E. congruence. }
  induction ps as [|[j w] ps IH]; cbn [searchParams_set find fst].
  - now rewrite Hkk.
  - destruct (jsstring_eqb j k) eqn:E; cbn [find fst].
    + apply jsstring_eqb_eq in E. subst j. rewrite Hkk. f_equal.
      clear IH. induction ps as [|[j w'] ps IH]; cbn [filter find fst];
        [reflexivity|].
      destruct (jsstring_eqb j k) eqn:Ej; cbn [negb find fst].
      * apply jsstring_eqb_eq in Ej. subst j. now rewrite Hkk.
      * destruct (jsstring_eqb j k'); [reflexivity|exact IH].
    + destruct (jsstring_eqb j k'); [reflexivity|].
      exact IH.
Qed.

Lemma fold_URL_set_get_other ps : forall u k,
  ~ In k (List.map fst ps) ->
  searchParams_get (searchParams (fold_left URL_set ps u)) k
  = searchParams_get (searchParams u) k.
Proof.
  induction ps as [|[k0 v0] ps IH]; intros u k Hk; cbn [fold_left];
    [reflexivity|].
  cbn [map fst In] in Hk. rewrite IH by tauto.
  unfold URL_set. cbn [searchParams fst snd].
  apply searchParams_get_set_other. intros ->. tauto.
Qed.

(** After the parameters are set, each name gives its value: the pairs
    of distinct names shadow whatever the URL held under these names. *)
Lemma fold_URL_set_get ps : forall u k v,
  NoDup (List.map fst ps) -> In (k, v) ps ->
  searchParams_get (searchParams (fold_left URL_set ps u)) k = Some v.
Proof.
  induction ps as [|[k0 v0] ps IH]; intros u k v Hnd Hin; [destruct Hin|].
  cbn [map fst] in Hnd. inversion Hnd as [|? ? Hk0 Hnd']; subst.
  cbn [fold_left]. destruct Hin as [Hin|Hin].
  - injection Hin as -> ->.
    rewrite fold_URL_set_get_other by exact Hk0.
    unfold URL_set. cbn [searchParams fst snd]. apply searchParams_get_set.
  - now apply IH.
Qed.

Lemma searchParams_set_fresh ps k v :
  ~ In k (List.map fst ps) -> searchParams_set ps k v = ps ++ [(k, v)].
Proof.
  induction ps as [|[k' v'] ps IH]; cbn [searchParams_set map fst In app];
    [reflexivity|].
  intros H. destruct (jsstring_eqb k' k) eqn:E.
  - apply jsstring_eqb_eq in E. exfalso. apply H. now left.
  - rewrite IH; [reflexivity|]. intros Hin. apply H. now right.
Qed.

Lemma fold_URL_set_fresh ps :
  forall u,
    NoDup (List.map fst (searchParams u) ++ List.map fst ps) ->
    searchParams (fold_left URL_set ps u) = searchParams u ++ ps.
Proof.
  induction ps as [|[k v] ps IH]; intros u Hnd; cbn [fold_left].
  - now rewrite app_nil_r.
  - cbn [map fst] in Hnd.
    assert (Hk : ~ In k (List.map fst (searchParams u))).
    { apply NoDup_remove_2 in Hnd. intros Hin. apply Hnd.
      apply in_or_app. now left. }
    assert (E : searchParams (URL_set u (k, v)) = searchParams u ++ [(k, v)]).
    { unfold URL_set. cbn [searchParams fst snd].
      now apply searchParams_set_fresh. }
    rewrite IH; rewrite E.
    + now rewrite <- app_assoc.
    + rewrite map_app, <- app_assoc. exact Hnd.
Qed.

(** C2. Each fetch function whose URL the constructor accepts sends one
    request, to that URL.  When the response has a status outside
    200-299 the function fails with the one error the module raises,
    whose message carries that status and the endpoint path; a 404 on
    [/wp/v2/posts] makes [getPosts] fail with the error for status 404 and
    that path.  When the status is in 200-299 and the body is JSON, the
    module raises no error of its own and returns the parsed body
    ([getPostBySlug]: its first element or [null]); when the body is not
    JSON the function fails with the [SyntaxError] of the parser. *)
Theorem fetch_status_error (op : Operation) (srv : Server) (u : URL) :
  new_URL (BASE env +++ endpoint_of op) = Some u ->
  exists req,
    requests (run env op) srv = [req] /\
    href (url req) = href u /\
    (forall res,
        srv req = Some res -> ok res = false ->
        outcome (run env op) srv
        = Throw (JsError (js "WP API Error " +++ String_of_N (status res)
                            +++ js ": " +++ endpoint_of op))) /\
    (forall res perPage page,
        srv req = Some res -> status res = 404 ->
        op = GetPosts perPage page ->
        outcome (run env op) srv
        = Throw (JsError (js "WP API Error 404: /wp/v2/posts"))) /\
    (forall res v,
        srv req = Some res -> ok res = true ->
        JSON_parse (body res) = Some v ->
        (forall m, outcome (run env op) srv <> Throw (JsError m)) /\
        ((forall slug, op <> GetPostBySlug slug) ->
         outcome (run env op) srv = Normal v) /\
        (forall slug, op = GetPostBySlug slug ->
                      outcome (run env op) srv = first_or_null v)) /\
    (forall res,
        srv req = Some res -> ok res = true ->
        JSON_parse (body res) = None ->
        outcome (run env op) srv = Throw JsSyntaxError).
Proof.
  intros Hu.
  destruct (run_shape op) as [params Hshape].
  destruct (Hshape srv) as [Hreq Hout].
  rewrite (@wpFetch_requests _ _ srv u Hu) in Hreq.
  exists (wp_request u params).
  split; [exact Hreq|]. split; [apply wp_request_href|].
  assert (Hfail : forall res,
             srv (wp_request u params) = Some res ->
             ok res = false ->
             outcome (run env op) srv
             = Throw (JsError (error_message (status res) (endpoint_of op)))).
  { intros res Hres Hok. rewrite Hout.
    now rewrite (@wpFetch_rejected _ _ srv u res Hu Hres Hok). }
  split; [exact Hfail|]. split; [|split].
  - intros res perPage page Hres Hst ->.
    rewrite (Hfail res Hres).
    + rewrite Hst. reflexivity.
    + unfold ok. rewrite Hst. reflexivity.
  - intros res v Hres Hok Hv. rewrite Hout.
    rewrite (@wpFetch_decoded _ _ srv u res Hu Hres Hok), Hv.
    split; [|split].
    + intros m. destruct op; cbn [returned]; try discriminate.
      destruct v; discriminate.
    + intros Hop. destruct op; cbn [returned]; try reflexivity.
      exact (False_ind _ (Hop _ eq_refl)).
    + now intros slug ->.
  - intros res Hres Hok Hv. rewrite Hout.
    now rewrite (@wpFetch_decoded _ _ srv u res Hu Hres Hok), Hv.
Qed.

(** C3. [getPostBySlug] asks for the posts with the given slug and, on
    a successful response, returns the post when the response holds
    exactly one, and [null] (no error) when it holds none. *)
Theorem getPostBySlug_match_or_null (slug : jsstring) (srv : Server)
  (u : URL) (res : Response) :
  let req :=
    wp_request u (Some [(js "slug", slug); (js "_embed", js "1")]) in
  new_URL (BASE env +++ js "/wp/v2/posts") = Some u ->
  srv req = Some res ->
  ok res = true ->
  requests (getPostBySlug env slug) srv = [req] /\
  href (url req) = href u /\
  searchParams_get (searchParams (url req)) (js "slug") = Some slug /\
  searchParams_get (searchParams (url req)) (js "_embed") = Some (js "1") /\
  (searchParams u = [] ->
   searchParams (url req) = [(js "slug", slug); (js "_embed", js "1")]) /\
  (forall p : JSON,
      JSON_parse (body res) = Some (JArray [p]) ->
      outcome (getPostBySlug env slug) srv = Normal p) /\
  (JSON_parse (body res) = Some (JArray []) ->
   outcome (getPostBySlug env slug) srv = Normal JNull).
Proof.
  intros req Hu Hres Hok.
  assert (Hnd : NoDup (List.map fst [(js "slug", slug); (js "_embed", js "1")])).
  { repeat constructor; intros H; cbn in H; intuition discriminate. }
  assert (Hout : outcome (getPostBySlug env slug) srv
                 = match JSON_parse (body res) with
                   | Some v => first_or_null v
                   | None => Throw JsSyntaxError
                   end).
  { pose proof (@wpFetch_decoded (js "/wp/v2/posts")
                  (Some [(js "slug", slug); (js "_embed", js "1")])
                  srv u res Hu Hres Hok) as D.
    unfold outcome in *. unfold getPostBySlug, bind, lift.
    destruct (wpFetch env _ _ srv) as [sent c]. cbn [snd] in *. subst c.
    destruct (JSON_parse (body res)); [|reflexivity].
    destruct (first_or_null j); reflexivity. }
  split; [|split; [|split; [|split; [|split; [|split]]]]].
  - pose proof (@wpFetch_requests (js "/wp/v2/posts")
                  (Some [(js "slug", slug); (js "_embed", js "1")])
                  srv u Hu) as R.
    unfold requests in *. unfold getPostBySlug, bind, lift.
    destruct (wpFetch env _ _ srv) as [sent [v|e]]; cbn [fst] in *;
      rewrite ?app_nil_r; exact R.
  - apply wp_request_href.
  - apply fold_URL_set_get; [exact Hnd|now left].
  - apply fold_URL_set_get; [exact Hnd|right; now left].
  - intros Hq. unfold req, wp_request. cbn [url].
    rewrite fold_URL_set_fresh; rewrite Hq; [reflexivity|exact Hnd].
  - intros p Hp. rewrite Hout, Hp. cbn [first_or_null element0 nth_error].
    now destruct p.
  - intros Hp. now rewrite Hout, Hp.
Qed.

(** C4. For every count [n], [getLatestPosts(n)] is [getPosts(n, 1)]:
    on every server both send the same requests and complete alike: for
    an integer [n] in the exact range, no request when the base does not
    make an absolute URL and otherwise the one request for [n] posts of
    page 1, with embedded resources; without argument the count is 3. *)
Theorem getLatestPosts_alias (n : Z) (srv : Server) :
  getLatestPosts env (Some n) srv = getPosts env (Some n) (Some 1%Z) srv /\
  (safe_integer n ->
   requests (getLatestPosts env (Some n)) srv
   = match new_URL (BASE env +++ js "/wp/v2/posts") with
     | None => []
     | Some u =>
         [wp_request u (Some [(js "per_page", String_of_Z n);
                              (js "page", js "1");
                              (js "_embed", js "1")])]
     end) /\
  (new_URL (BASE env +++ js "/wp/v2/posts")
   = Some {| href := BASE env +++ js "/wp/v2/posts"; searchParams := [] |} ->
   safe_integer n ->
   requests (getLatestPosts env (Some n)) srv
   = [{| url := {| href := BASE env +++ js "/wp/v2/posts";
                   searchParams := [(js "per_page", String_of_Z n);
                                    (js "page", js "1");
                                    (js "_embed", js "1")] |};
         headers := [(js "Content-Type", js "application/json")] |}]) /\
  requests (getPosts env (Some n) (Some 1%Z)) srv
  = requests (getLatestPosts env (Some n)) srv /\
  outcome (getLatestPosts env (Some n)) srv
  = outcome (getPosts env (Some n) (Some 1%Z)) srv /\
  getLatestPosts env None srv = getPosts env (Some 3%Z) (Some 1%Z) srv.
Proof.
  split; [reflexivity|]. split; [|split; [|repeat split]].
  - intros _. unfold getLatestPosts, getPosts. cbn [nullish].
    destruct (new_URL (BASE env +++ js "/wp/v2/posts")) as [u|] eqn:Hu.
    + now rewrite (@wpFetch_requests _ _ srv u Hu).
    + unfold requests. now rewrite (@wpFetch_invalid _ _ srv Hu).
  - intros Hu _. unfold getLatestPosts, getPosts. cbn [nullish].
    rewrite (@wpFetch_requests _ _ srv _ Hu).
    (* the three parameter names are distinct, so each [set] appends *)
    reflexivity.
Qed.

(** C7. [getExperiences] sends one request, to [/wp/v2/experience] with
    the parameters per_page=100, _fields=id,title,acf, orderby=date and
    order=desc (on a base without query, these four in this order and no
    other): it asks for at most 100 records by descending date of
    publication, names neither [start_date] nor [end_date], and returns
    the parsed records as the server ordered them. *)
Theorem getExperiences_request (srv : Server) (u : URL) :
  let req := wp_request u (Some experience_params) in
  new_URL (BASE env +++ js "/wp/v2/experience") = Some u ->
  requests (getExperiences env) srv = [req] /\
  href (url req) = href u /\
  (forall k v, In (k, v) experience_params ->
               searchParams_get (searchParams (url req)) k = Some v) /\
  (searchParams u = [] -> searchParams (url req) = experience_params) /\
  Forall (fun kv => includes (fst kv) (js "start_date") = false /\
                    includes (snd kv) (js "start_date") = false /\
                    includes (fst kv) (js "end_date") = false /\
                    includes (snd kv) (js "end_date") = false)
         experience_params /\
  forall (res : Response) (data : JSON),
    srv req = Some res -> ok res = true ->
    JSON_parse (body res) = Some data ->
    outcome (getExperiences env) srv = Normal data.
Proof.
  intros req Hu.
  assert (Hnd : NoDup (List.map fst experience_params)).
  { repeat constructor; intros H; cbn in H; intuition discriminate. }
  split; [|split; [|split; [|split; [|split]]]].
  - pose proof (@wpFetch_requests (js "/wp/v2/experience")
                  (Some experience_params) srv u Hu) as R.
    unfold requests in *. unfold getExperiences, bind, ret.
    change (Some _) with (Some experience_params).
    destruct (wpFetch env _ _ srv) as [sent [v|e]]; cbn [fst] in *;
      rewrite ?app_nil_r; exact R.
  - apply wp_request_href.
  - intros k v Hin. now apply fold_URL_set_get.
  - intros Hq. unfold req, wp_request. cbn [url].
    rewrite fold_URL_set_fresh; rewrite Hq; [reflexivity|exact Hnd].
  - repeat constructor.
  - intros res data Hres Hok Hdata.
    pose proof (@wpFetch_decoded (js "/wp/v2/experience")
                  (Some experience_params) srv u res Hu Hres Hok) as D.
    rewrite Hdata in D.
    unfold outcome in *. unfold getExperiences, bind, ret.
    change (Some _) with (Some experience_params).
    destruct (wpFetch env _ _ srv) as [sent c]; cbn [snd] in *.
    now subst c.
Qed.

End FacadeFacts.

(* ------------------------------------------------------------------ *)
(** * Properties of groupSkillsByCategory *)
(* ------------------------------------------------------------------ *)

Section ObjFacts.

Context {V : Type}.
Implicit Types (o : Obj.t V) (k : jsstring).

Lemma get_own_None o k :
  Obj.get_own o k = None <-> ~ In k (Obj.created_keys o).
Proof.
  induction o as [|[k' v] o IH]; cbn [Obj.get_own Obj.created_keys map fst].
  - split; [intros _ []|reflexivity].
  - destruct (jsstring_eqb k' k) eqn:E.
    + apply jsstring_eqb_eq in E. subst k'.
      split; [discriminate|]. intros H. exfalso. apply H. now left.
    + rewrite IH. unfold Obj.created_keys.
      split.
      * intros H [H'|H']; [|now apply H].
        subst k'. now rewrite jsstring_eqb_refl in E.
      * intros H H'. apply H. now right.
Qed.

Lemma get_own_In o k v :
  NoDup (Obj.created_keys o) -> In (k, v) o -> Obj.get_own o k = Some v.
Proof.
  induction o as [|[k' v'] o IH]; cbn [Obj.get_own Obj.created_keys map fst];
    [intros _ []|].
  intros Hnd [H|H].
  - injection H as -> ->. now rewrite jsstring_eqb_refl.
  - inversion Hnd as [|? ? Hk Hnd']; subst.
    destruct (jsstring_eqb k' k) eqn:E.
    + apply jsstring_eqb_eq in E. subst k'.
      exfalso. apply Hk. apply in_map_iff. now exists (k, v).
    + now apply IH.
Qed.

Lemma created_keys_update o k f :
  Obj.created_keys (Obj.update o k f) = Obj.created_keys o.
Proof.
  induction o as [|[k' v] o IH]; [reflexivity|].
  cbn [Obj.update]. destruct (jsstring_eqb k' k); [reflexivity|].
  cbn [Obj.created_keys map fst]. f_equal. exact IH.
Qed.

Lemma get_own_update o k f k' :
  Obj.get_own (Obj.update o k f) k'
  = if jsstring_eqb k k' then option_map f (Obj.get_own o k)
    else Obj.get_own o k'.
Proof.
  induction o as [|[j v] o IH]; cbn [Obj.update Obj.get_own].
  - now destruct (jsstring_eqb k k').
  - destruct (jsstring_eqb j k) eqn:E.
    + apply jsstring_eqb_eq in E. subst j. cbn [Obj.get_own].
      destruct (jsstring_eqb k k'); reflexivity.
    + cbn [Obj.get_own]. destruct (jsstring_eqb j k') eqn:E'.
      * apply jsstring_eqb_eq in E'. subst j.
        destruct (jsstring_eqb k k') eqn:E''; [|reflexivity].
        apply jsstring_eqb_eq in E''. subst k'.
        now rewrite jsstring_eqb_refl in E.
      * exact IH.
Qed.

Lemma get_own_define o k v k' :
  Obj.get_own (Obj.define o k v) k'
  = match Obj.get_own o k' with
    | Some x => Some x
    | None => if jsstring_eqb k k' then Some v else None
    end.
Proof.
  unfold Obj.define.
  induction o as [|[j x] o IH]; cbn [app Obj.get_own]; [reflexivity|].
  destruct (jsstring_eqb j k'); [reflexivity|exact IH].
Qed.

Lemma created_keys_define o k v :
  Obj.created_keys (Obj.define o k v) = Obj.created_keys o ++ [k].
Proof. unfold Obj.created_keys, Obj.define. now rewrite map_app. Qed.

(** With distinct names, the values are the lookups of the names. *)
Lemma created_values_lookup o (d : V) :
  NoDup (Obj.created_keys o) ->
  Obj.created_values o
  = List.map (fun k => Obj.get_own o k ?? d) (Obj.created_keys o).
Proof.
  intros Hnd. unfold Obj.created_values, Obj.created_keys.
  rewrite map_map. apply map_ext_in. intros [k v] Hin. cbn [fst snd].
  now rewrite (@get_own_In o k v Hnd Hin).
Qed.

End ObjFacts.

Section PartitionFacts.

Context {A : Type} (f : A -> jsstring).

Lemma filter_split (p : A -> bool) (l : list A) :
  Permutation (filter p l ++ filter (fun x => negb (p x)) l) l.
Proof.
  induction l as [|x l IH]; cbn [filter]; [constructor|].
  destruct (p x); cbn [negb app].
  - now constructor.
  - apply Permutation_sym, Permutation_cons_app, Permutation_sym, IH.
Qed.

(** Picking by each of a list of distinct keys that covers the keys of
    the elements rearranges the list. *)
Lemma concat_picks ks :
  NoDup ks ->
  forall l, (forall x, In x l -> In (f x) ks) ->
            Permutation (List.concat (List.map (fun k => pick_by f k l) ks)) l.
Proof.
  induction 1 as [|k ks Hk Hnd IH]; intros l Hcov; cbn [map List.concat].
  - destruct l as [|x l]; [constructor|]. destruct (Hcov x); now left.
  - set (rest := filter (fun x => negb (jsstring_eqb (f x) k)) l).
    assert (E : List.map (fun k' => pick_by f k' l) ks
                = List.map (fun k' => pick_by f k' rest) ks).
    { apply map_ext_in. intros k' Hk'. unfold pick_by, rest.
      induction l as [|x l IHl]; cbn [filter]; [reflexivity|].
      assert (IHl' := IHl (fun y Hy => Hcov y (or_intror Hy))).
      destruct (jsstring_eqb (f x) k) eqn:Ek; cbn [negb filter].
      - apply jsstring_eqb_eq in Ek.
        destruct (jsstring_eqb (f x) k') eqn:Ek'; [|exact IHl'].
        apply jsstring_eqb_eq in Ek'. exfalso. apply Hk. congruence.
      - destruct (jsstring_eqb (f x) k'); [f_equal|]; exact IHl'. }
    rewrite E.
    eapply Permutation_trans; [|apply (filter_split
                                        (fun x => jsstring_eqb (f x) k))].
    apply Permutation_app_head. apply IH.
    intros x Hx. unfold rest in Hx. apply filter_In in Hx as [Hx Hne].
    destruct (Hcov x Hx) as [Heq|Hin]; [|exact Hin].
    subst k. now rewrite jsstring_eqb_refl in Hne.
Qed.

End PartitionFacts.

Section GroupFacts.

Implicit Types (acc : Obj.t (list Skill)) (skill : Skill)
  (skills : list Skill) (k : jsstring).

(** One step of the reduction on a skill whose label is not inherited:
    the skill goes to the end of the array of its label, which is
    created after the existing ones when it is new. *)
Lemma group_step_plain acc skill :
  Obj.inherited (label_of skill) = false ->
  exists acc',
    group_step acc skill = Normal acc' /\
    (forall k, group_at acc' k
               = group_at acc k
                 ++ (if jsstring_eqb (label_of skill) k then [skill] else []))
    /\ (Obj.created_keys acc'
        = Obj.created_keys acc
          ++ match Obj.get_own acc (label_of skill) with
             | Some _ => []
             | None => [label_of skill]
             end).
Proof.
  intros Hplain. unfold group_step.
  fold (label_of skill). rewrite Hplain.
  destruct (Obj.get_own acc (label_of skill)) as [arr|] eqn:E.
  - eexists. split; [reflexivity|]. split.
    + intros k. unfold group_at. rewrite get_own_update, E.
      destruct (jsstring_eqb (label_of skill) k) eqn:Ek.
      * apply jsstring_eqb_eq in Ek. subst k. now rewrite E.
      * now rewrite app_nil_r.
    + now rewrite created_keys_update, app_nil_r.
  - eexists. split; [reflexivity|]. split.
    + intros k. unfold group_at. rewrite get_own_define.
      destruct (Obj.get_own acc k) as [arr|] eqn:Ek.
      * destruct (jsstring_eqb (label_of skill) k) eqn:El;
          [|now rewrite app_nil_r].
        apply jsstring_eqb_eq in El. congruence.
      * now destruct (jsstring_eqb (label_of skill) k).
    + apply created_keys_define.
Qed.

Lemma reduce_plain skills :
  plain_labels skills = true ->
  forall acc,
    NoDup (Obj.created_keys acc) ->
    exists acc',
      reduce group_step skills acc = Normal acc' /\
      NoDup (Obj.created_keys acc') /\
      (forall k, group_at acc' k = group_at acc k ++ with_label k skills) /\
      (forall k, In k (Obj.created_keys acc') <->
                 In k (Obj.created_keys acc)
                 \/ In k (List.map label_of skills)).
Proof.
  induction skills as [|skill skills IH]; intros Hplain acc Hnd.
  - exists acc. cbn [reduce with_label filter map In].
    split; [reflexivity|]. split; [exact Hnd|].
    split; [intros k; now rewrite app_nil_r|]. tauto.
  - cbn [plain_labels forallb] in Hplain.
    apply andb_true_iff in Hplain as [Hs Hrest].
    apply negb_true_iff in Hs.
    destruct (@group_step_plain acc skill Hs) as (acc1 & Hstep & Hgroup & Hkeys).
    assert (Hnd1 : NoDup (Obj.created_keys acc1)).
    { rewrite Hkeys.
      destruct (Obj.get_own acc (label_of skill)) eqn:E.
      - now rewrite app_nil_r.
      - apply get_own_None in E.
        apply NoDup_rev in Hnd. rewrite <- (rev_involutive (_ ++ _)).
        apply NoDup_rev. rewrite rev_app_distr. cbn [rev app].
        constructor; [|exact Hnd].
        intros H. apply E. now apply in_rev. }
    destruct (IH Hrest acc1 Hnd1) as (acc' & Hred & Hnd' & Hg & Hk).
    exists acc'. cbn [reduce]. rewrite Hstep.
    split; [exact Hred|]. split; [exact Hnd'|]. split.
    + intros k. rewrite Hg, Hgroup, <- app_assoc. f_equal.
      unfold with_label. cbn [filter].
      now destruct (jsstring_eqb (label_of skill) k).
    + intros k. rewrite Hk, Hkeys, in_app_iff. cbn [map In].
      destruct (Obj.get_own acc (label_of skill)) eqn:E.
      * cbn [In]. split; [tauto|].
        intros [H|[H|H]]; [tauto| |tauto].
        subst k. left. left.
        destruct (in_dec (list_eq_dec N.eq_dec) (label_of skill)
                    (Obj.created_keys acc)) as [Hin|Hout]; [exact Hin|].
        apply get_own_None in Hout. congruence.
      * cbn [In]. tauto.
Qed.

(** A skill whose label is inherited from [Object.prototype] stops
    the reduction. *)
Lemma reduce_inherited skills :
  plain_labels skills = false ->
  forall acc,
    Forall (fun k => Obj.inherited k = false) (Obj.created_keys acc) ->
    reduce group_step skills acc = Throw JsTypeError.
Proof.
  induction skills as [|skill skills IH]; intros Hplain acc Hacc;
    [discriminate|].
  cbn [plain_labels forallb] in Hplain. cbn [reduce].
  destruct (Obj.inherited (label_of skill)) eqn:Hs.
  - unfold group_step. fold (label_of skill).
    destruct (Obj.get_own acc (label_of skill)) eqn:E.
    + exfalso.
      assert (Hin : In (label_of skill) (Obj.created_keys acc)).
      { destruct (in_dec (list_eq_dec N.eq_dec) (label_of skill)
                    (Obj.created_keys acc)) as [Hin|Hout]; [exact Hin|].
        apply get_own_None in Hout. congruence. }
      rewrite Forall_forall in Hacc. apply Hacc in Hin. congruence.
    + now rewrite Hs.
  - cbn [negb andb] in Hplain.
    destruct (@group_step_plain acc skill Hs) as (acc1 & Hstep & _ & Hkeys).
    rewrite Hstep. apply IH; [exact Hplain|].
    rewrite Hkeys. apply Forall_app. split; [exact Hacc|].
    destruct (Obj.get_own acc (label_of skill)); repeat constructor.
    exact Hs.
Qed.

End GroupFacts.

(** X9. On labels that are not inherited property names the grouping is
    a partition: the group names are distinct; the group named [k] is the
    sub-list of the skills labelled [k], in input order; each skill is in
    the group of its label and in no other, a skill without category
    being labelled "Otros"; and the groups, concatenated in order of
    creation, rearrange the input. *)
Lemma groupSkillsByCategory_partition (skills : list Skill) :
  plain_labels skills = true ->
  exists groups,
    groupSkillsByCategory skills = Normal groups /\
    NoDup (Obj.created_keys groups) /\
    (forall k arr, In (k, arr) groups -> arr = with_label k skills) /\
    (forall s, In s skills ->
               exists arr, In (label_of s, arr) groups /\ In s arr) /\
    (forall s k arr, In (k, arr) groups -> In s arr -> k = label_of s) /\
    (forall s, In s skills -> category (skill_acf s) = None ->
               exists arr, In (Otros, arr) groups /\ In s arr) /\
    Permutation (List.concat (Obj.created_values groups)) skills.
Proof.
  intros Hplain.
  destruct (@reduce_plain skills Hplain [] (NoDup_nil _))
    as (groups & Hred & Hnd & Hgroup & Hkeys).
  assert (Harr : forall k arr, In (k, arr) groups -> arr = with_label k skills).
  { intros k arr Hin. specialize (Hgroup k). unfold group_at in Hgroup.
    rewrite (@get_own_In _ groups k arr Hnd Hin) in Hgroup. exact Hgroup. }
  assert (Hmem : forall s, In s skills ->
                           exists arr, In (label_of s, arr) groups /\ In s arr).
  { intros s Hs.
    assert (Hk : In (label_of s) (Obj.created_keys groups)).
    { apply Hkeys. right. now apply in_map. }
    apply in_map_iff in Hk as ([k arr] & Hfst & Hin). cbn [fst] in Hfst.
    subst k. exists arr. split; [exact Hin|].
    rewrite (Harr _ _ Hin). apply filter_In. split; [exact Hs|].
    apply jsstring_eqb_refl. }
  exists groups. split; [exact Hred|]. split; [exact Hnd|].
  split; [exact Harr|]. split; [exact Hmem|]. split; [|split].
  - intros s k arr Hin Hs. rewrite (Harr _ _ Hin) in Hs.
    apply filter_In in Hs as [_ Hs]. apply jsstring_eqb_eq in Hs. now symmetry.
  - intros s Hs Hnone. destruct (Hmem s Hs) as (arr & Hin & Hsarr).
    exists arr. split; [|exact Hsarr].
    unfold label_of in Hin. now rewrite Hnone in Hin.
  - rewrite (@created_values_lookup _ groups [] Hnd).
    change (fun k => Obj.get_own groups k ?? []) with (group_at groups).
    rewrite (map_ext _ (fun k => with_label k skills) Hgroup).
    apply (concat_picks label_of Hnd).
    intros s Hs. apply Hkeys. right. now apply in_map.
Qed.

Lemma groupSkillsByCategory_partition_witness :
  let a := mkSkill 1 (Some (js "Frontend")) in
  let b := mkSkill 2 (Some (js "Backend")) in
  let c := mkSkill 3 (Some (js "Frontend")) in
  let d := mkSkill 4 None in
  groupSkillsByCategory [a; b; c; d]
  = Normal [(js "Frontend", [a; c]); (js "Backend", [b]); (js "Otros", [d])]
  /\ exists groups,
       groupSkillsByCategory [a; b; c; d] = Normal groups /\
       Permutation (List.concat (Obj.created_values groups)) [a; b; c; d].
Proof.
  intros a b c d. split; [reflexivity|].
  destruct (@groupSkillsByCategory_partition [a; b; c; d] eq_refl)
    as (groups & H1 & _ & _ & _ & _ & _ & H7).
  exists groups. split; assumption.
Defined.

(** A label that names a property of [Object.prototype] makes the
    grouping throw, wherever the skill stands in the list. *)
Lemma groupSkillsByCategory_inherited (skills : list Skill) :
  plain_labels skills = false ->
  groupSkillsByCategory skills = Throw JsTypeError.
Proof.
  intros H. apply reduce_inherited; [exact H|constructor].
Qed.

(** C1. The grouping is meant to file every skill of every list under its
    label.  On the list of one skill whose category is "constructor" it
    files nothing: [acc["constructor"]] is the function inherited from
    [Object.prototype], no array is assigned, and the call of its missing
    [push] throws a [TypeError]. *)
Theorem groupSkillsByCategory_constructor_label :
  groupSkillsByCategory [mkSkill 1 (Some (js "constructor"))]
  = Throw JsTypeError.
Proof. reflexivity. Qed.

(* ------------------------------------------------------------------ *)
(** * The fetch functions on the sample servers *)
(* ------------------------------------------------------------------ *)

(** A status in 200-299 does not exclude a failure: on a body that is not
    JSON, [getPosts] fails with the parser's [SyntaxError] and returns
    nothing. *)
Lemma fetch_status_error_counterexample :
  ok {| status := 200; body := js "<html>Maintenance</html>" |} = true /\
  outcome (sample_run (GetPosts None None))
    (constant_server 200 (js "<html>Maintenance</html>"))
  = Throw JsSyntaxError /\
  ~ (exists v,
        outcome (sample_run (GetPosts None None))
          (constant_server 200 (js "<html>Maintenance</html>"))
        = Normal v).
Proof.
  split; [reflexivity|]. split; [reflexivity|].
  intros [v H]. discriminate H.
Qed.

Lemma fetch_status_error_witness :
  ok {| status := 404; body := empty |} = false /\
  outcome (sample_run (GetPosts None None)) (constant_server 404 empty)
  = Throw (JsError (js "WP API Error 404: /wp/v2/posts")) /\
  outcome (sample_run GetSkills) (constant_server 503 empty)
  = Throw (JsError (js "WP API Error 503: /wp/v2/skill")) /\
  ok {| status := 200; body := one_post_body |} = true /\
  outcome (sample_run GetCategories) (constant_server 200 one_post_body)
  = Normal (JArray [one_post]) /\
  outcome (sample_run (GetPostBySlug (js "hola-mundo")))
    (constant_server 200 one_post_body)
  = Normal one_post.
Proof.
  split; [reflexivity|].
  split; [|split; [|split; [reflexivity|split]]].
  - destruct (@fetch_status_error None sample_platform
                (GetPosts None None) (constant_server 404 empty)
                {| href := js "https://tu-sitio.com/wp-json/wp/v2/posts";
                   searchParams := [] |} eq_refl)
      as (req & _ & _ & _ & H404 & _).
    exact (H404 {| status := 404; body := empty |} None None
             eq_refl eq_refl eq_refl).
  - destruct (@fetch_status_error None sample_platform
                GetSkills (constant_server 503 empty)
                {| href := js "https://tu-sitio.com/wp-json/wp/v2/skill";
                   searchParams := [] |} eq_refl)
      as (req & _ & _ & Hfail & _).
    exact (Hfail {| status := 503; body := empty |} eq_refl eq_refl).
  - destruct (@fetch_status_error None sample_platform
                GetCategories (constant_server 200 one_post_body)
                {| href := js "https://tu-sitio.com/wp-json/wp/v2/categories";
                   searchParams := [] |} eq_refl)
      as (req & _ & _ & _ & _ & Hok & _).
    destruct (Hok {| status := 200; body := one_post_body |}
                (JArray [one_post]) eq_refl eq_refl eq_refl)
      as (_ & Hv & _).
    apply Hv. discriminate.
  - destruct (@fetch_status_error None sample_platform
                (GetPostBySlug (js "hola-mundo"))
                (constant_server 200 one_post_body)
                {| href := js "https://tu-sitio.com/wp-json/wp/v2/posts";
                   searchParams := [] |} eq_refl)
      as (req & _ & _ & _ & _ & Hok & _).
    destruct (Hok {| status := 200; body := one_post_body |}
                (JArray [one_post]) eq_refl eq_refl eq_refl)
      as (_ & _ & Hv).
    exact (Hv (js "hola-mundo") eq_refl).
Defined.

Lemma getPostBySlug_match_or_null_witness :
  outcome (getPostBySlug None (platform := sample_platform)
             (js "hola-mundo"))
    (constant_server 200 one_post_body)
  = Normal one_post /\
  outcome (getPostBySlug None (platform := sample_platform)
             (js "no-such-post"))
    (constant_server 200 (js "[]"))
  = Normal JNull.
Proof.
  split.
  - destruct (@getPostBySlug_match_or_null None sample_platform
                (js "hola-mundo") (constant_server 200 one_post_body)
                {| href := js "https://tu-sitio.com/wp-json/wp/v2/posts";
                   searchParams := [] |}
                {| status := 200; body := one_post_body |}
                eq_refl eq_refl eq_refl) as (_ & _ & _ & _ & _ & Hone & _).
    exact (Hone one_post eq_refl).
  - destruct (@getPostBySlug_match_or_null None sample_platform
                (js "no-such-post") (constant_server 200 (js "[]"))
                {| href := js "https://tu-sitio.com/wp-json/wp/v2/posts";
                   searchParams := [] |}
                {| status := 200; body := js "[]" |}
                eq_refl eq_refl eq_refl) as (_ & _ & _ & _ & _ & _ & Hnone).
    exact (Hnone eq_refl).
Defined.

Lemma getLatestPosts_alias_witness :
  requests (getLatestPosts None (platform := sample_platform) (Some 3%Z))
    (constant_server 200 (js "[]"))
  = [{| url := {| href := js "https://tu-sitio.com/wp-json/wp/v2/posts";
                  searchParams := [(js "per_page", js "3");
                                   (js "page", js "1");
                                   (js "_embed", js "1")] |};
        headers := [(js "Content-Type", js "application/json")] |}] /\
  requests (getLatestPosts (Some empty) (platform := sample_platform)
              (Some 3%Z))
    (constant_server 200 (js "[]")) = [].
Proof.
  assert (S3 : safe_integer 3) by (unfold safe_integer; lia).
  split.
  - exact (proj1 (proj2 (proj2 (@getLatestPosts_alias None sample_platform
                                  3%Z (constant_server 200 (js "[]")))))
             eq_refl S3).
  - exact (proj1 (proj2 (@getLatestPosts_alias (Some empty) sample_platform
                           3%Z (constant_server 200 (js "[]")))) S3).
Defined.

Lemma getExperiences_request_witness :
  requests (getExperiences None (platform := sample_platform))
    (constant_server 200 (js "[]"))
  = [{| url := {| href := js "https://tu-sitio.com/wp-json/wp/v2/experience";
                  searchParams := experience_params |};
        headers := [(js "Content-Type", js "application/json")] |}] /\
  outcome (getExperiences None (platform := sample_platform))
    (constant_server 200 (js "[]"))
  = Normal (JArray []).
Proof.
  destruct (@getExperiences_request None sample_platform
              (constant_server 200 (js "[]"))
              {| href := js "https://tu-sitio.com/wp-json/wp/v2/experience";
                 searchParams := [] |} eq_refl)
    as (Hreq & _ & _ & _ & _ & Hdata).
  split; [exact Hreq|].
  exact (Hdata {| status := 200; body := js "[]" |} (JArray [])
           eq_refl eq_refl eq_refl).
Defined.

(* ------------------------------------------------------------------ *)
(** * Further properties of stripHtml and parseTechs *)
(* ------------------------------------------------------------------ *)

Section SubsequenceFacts.

Lemma subsequence_refl s : subsequence s s.
Proof. induction s; constructor; assumption. Qed.

Lemma subsequence_nil t : subsequence [] t.
Proof. induction t; constructor; assumption. Qed.

Lemma subsequence_trans b c :
  subsequence b c -> forall a, subsequence a b -> subsequence a c.
Proof.
  induction 1 as [|x b c Hbc IH|x b c Hbc IH]; intros a Hab.
  - exact Hab.
  - inversion Hab as [|y a' b' Ha'|y a' b' Ha']; subst.
    + apply sub_keep. now apply IH.
    + apply sub_drop. now apply IH.
  - apply sub_drop. now apply IH.
Qed.

Lemma subsequence_middle a m b : subsequence m (a ++ m ++ b).
Proof.
  induction a as [|c a IH]; cbn [app].
  - induction m as [|c m IHm]; cbn [app].
    + apply subsequence_nil.
    + now apply sub_keep.
  - now apply sub_drop.
Qed.

Lemma subsequence_length s t :
  subsequence s t -> (List.length s <= List.length t)%nat.
Proof. induction 1; cbn [List.length]; lia. Qed.

Lemma subsequence_In s t c : subsequence s t -> In c s -> In c t.
Proof.
  induction 1 as [|x s t H IH|x s t H IH]; cbn [In]; intuition.
Qed.

(** A trimmed string is a piece of the string. *)
Lemma trim_piece s : exists a b, s = a ++ trim s ++ b.
Proof.
  destruct (trimStart_suffix s) as [a Ha].
  destruct (trimEnd_prefix (trimStart s)) as [b Hb].
  exists a, b. unfold trim. now rewrite <- Hb.
Qed.

Lemma replace_skip_subsequence s :
  subsequence (replace_tags s) s /\ subsequence (skip_tag s) s.
Proof.
  induction s as [|c r [IHr IHs]]; cbn [replace_tags skip_tag].
  - split; constructor.
  - split.
    + destruct ((c =? LT) && existsb (N.eqb GT) r).
      * now apply sub_drop.
      * now apply sub_keep.
    + destruct (c =? GT); now apply sub_drop.
Qed.

Lemma ends_trimmed_trim s : ends_trimmed (trim s) = true.
Proof.
  destruct (trim s) as [|c r] eqn:E; [reflexivity|].
  unfold ends_trimmed. rewrite (@trim_head s c r E). cbn [negb andb].
  destruct (@exists_last _ (c :: r)) as (r' & c' & E'); [discriminate|].
  rewrite E', last_last. rewrite E' in E. now rewrite (@trim_last s r' c' E).
Qed.

Lemma ends_trimmed_fixed w : ends_trimmed w = true -> trim w = w.
Proof.
  destruct w as [|c r]; [reflexivity|].
  unfold ends_trimmed. intros H. apply andb_true_iff in H as [Hc Hl].
  apply negb_true_iff in Hc, Hl.
  unfold trim. cbn [trimStart]. rewrite Hc.
  destruct (@exists_last _ (c :: r)) as (r' & c' & E); [discriminate|].
  rewrite E in Hl |- *. rewrite last_last in Hl.
  unfold trimEnd. rewrite rev_app_distr. cbn [rev app trimStart].
  rewrite Hl. cbn [rev]. now rewrite rev_involutive.
Qed.

End SubsequenceFacts.

(** X1. [stripHtml] only deletes: its result is the input with some code
    units removed, so it is no longer than the input and holds no code
    unit the input lacks. *)
Theorem stripHtml_subsequence (html : jsstring) :
  subsequence (stripHtml html) html /\
  (List.length (stripHtml html) <= List.length html)%nat /\
  (forall c, In c (stripHtml html) -> In c html).
Proof.
  assert (H : subsequence (stripHtml html) html).
  { unfold stripHtml.
    apply (subsequence_trans (proj1 (replace_skip_subsequence html))).
    destruct (trim_piece (replace_tags html)) as (a & b & E).
    rewrite E at 2. apply subsequence_middle. }
  split; [exact H|]. split.
  - now apply subsequence_length.
  - intros c. now apply subsequence_In.
Qed.

(** X2. The result of [stripHtml] holds no tag (no [<] followed by a
    [>]) and neither begins nor ends with white space. *)
Theorem stripHtml_clean (html : jsstring) :
  tag_free (stripHtml html) = true /\ ends_trimmed (stripHtml html) = true.
Proof.
  unfold stripHtml. split.
  - apply tag_free_trim, replace_tags_tag_free.
  - apply ends_trimmed_trim.
Qed.

(** X3. The substitution changes a text exactly when it holds a tag: a
    text in which no [<] is followed by a [>] (such as "a < b") is only
    trimmed by [stripHtml], its [<] kept. *)
Theorem stripHtml_plain_text (s : jsstring) :
  (replace_tags s = s <-> tag_free s = true) /\
  (tag_free s = true -> stripHtml s = trim s).
Proof.
  split; [split|].
  - intros E. rewrite <- E. apply replace_tags_tag_free.
  - apply replace_tags_fixed.
  - intros H. unfold stripHtml. now rewrite replace_tags_fixed.
Qed.

Lemma stripHtml_plain_text_witness :
  tag_free (js " a < b ") = true /\
  stripHtml (js " a < b ") = js "a < b".
Proof.
  split; [reflexivity|].
  rewrite (proj2 (stripHtml_plain_text (js " a < b ")) eq_refl).
  reflexivity.
Defined.

Section TokenFacts.

Variable sep : code_unit.

Lemma split_whole a : ~ In sep a -> split sep a = [a].
Proof.
  induction a as [|c a IH]; cbn [split In]; [reflexivity|].
  intros H. destruct (c =? sep) eqn:E.
  - apply N.eqb_eq in E. exfalso. apply H. now left.
  - rewrite IH; [reflexivity|]. intros Hin. apply H. now right.
Qed.

Lemma split_app a b :
  ~ In sep a -> split sep (a ++ sep :: b) = a :: split sep b.
Proof.
  induction a as [|c a IH]; cbn [app split In].
  - intros _. now rewrite N.eqb_refl.
  - intros H. destruct (c =? sep) eqn:E.
    + apply N.eqb_eq in E. exfalso. apply H. now left.
    + rewrite IH; [reflexivity|]. intros Hin. apply H. now right.
Qed.

(** Splitting undoes joining when no token holds the separator. *)
Lemma split_join tokens :
  tokens <> [] -> Forall (fun w => ~ In sep w) tokens ->
  split sep (join sep tokens) = tokens.
Proof.
  induction tokens as [|w ws IH]; [congruence|].
  intros _ H. inversion H as [|? ? Hw Hws]; subst.
  destruct ws as [|w' ws].
  - cbn [join]. now apply split_whole.
  - change (join sep (w :: w' :: ws)) with (w ++ sep :: join sep (w' :: ws)).
    rewrite split_app by exact Hw. f_equal. apply IH; [discriminate|exact Hws].
Qed.

End TokenFacts.

Lemma trim_In s c : In c (trim s) -> In c s.
Proof.
  intros H. destruct (trim_piece s) as (a & b & E). rewrite E.
  apply in_or_app. right. apply in_or_app. now left.
Qed.

Lemma parseTechs_clean s : Forall clean_token (parseTechs s).
Proof.
  destruct s as [s|]; cbn [parseTechs]; [|constructor].
  apply Forall_forall. intros w Hw.
  apply filter_In in Hw as [Hin Hne].
  apply in_map_iff in Hin as (t & <- & Ht).
  split; [|split].
  - intros E. now rewrite E in Hne.
  - intros Hc. apply trim_In in Hc.
    pose proof (split_pieces COMMA s) as Hp.
    rewrite Forall_forall in Hp. exact (Hp t Ht Hc).
  - apply ends_trimmed_trim.
Qed.

Lemma parseTechs_join_clean tokens :
  Forall clean_token tokens -> parseTechs (Some (join COMMA tokens)) = tokens.
Proof.
  intros H. destruct tokens as [|w ws]; [reflexivity|].
  cbn [parseTechs]. rewrite split_join; [|discriminate|].
  - induction H as [|t ts (Hne & _ & Htrim) Hts IH]; [reflexivity|].
    cbn [map filter]. rewrite (ends_trimmed_fixed _ Htrim).
    destruct t; [congruence|]. cbn [truthy]. f_equal. exact IH.
  - eapply Forall_impl; [|exact H]. intros t (_ & Hc & _). exact Hc.
Qed.

(** X4. Every token that [parseTechs] returns is non-empty, holds no
    comma, has no white space at its ends, and is made of code units of
    the input. *)
Theorem parseTechs_tokens_clean (s : jsstring) :
  Forall clean_token (parseTechs (Some s)) /\
  Forall (fun w => forall c, In c w -> In c s) (parseTechs (Some s)).
Proof.
  split; [apply parseTechs_clean|].
  cbn [parseTechs]. apply Forall_forall. intros w Hw c Hc.
  apply filter_In in Hw as [Hin _].
  apply in_map_iff in Hin as (t & <- & Ht).
  apply trim_In in Hc.
  rewrite <- (join_split COMMA s).
  clear - Ht Hc. induction (split COMMA s) as [|u us IH]; [destruct Ht|].
  assert (E : forall x, In x (join COMMA (u :: us))
                        <-> In x u \/ (us <> [] /\ (x = COMMA \/ In x (join COMMA us)))).
  { intros x. destruct us as [|u' us'].
    - cbn [join]. split; [now left|]. intros [H|[H _]]; [exact H|congruence].
    - change (join COMMA (u :: u' :: us'))
        with (u ++ COMMA :: join COMMA (u' :: us')).
      rewrite in_app_iff. cbn [In]. split.
      + intros [H|[H|H]]; [now left| |].
        * right. split; [discriminate|]. now left.
        * right. split; [discriminate|]. now right.
      + intros [H|[_ [H|H]]]; [now left| |]; right; [now left|now right]. }
  apply E. destruct Ht as [->|Ht]; [now left|].
  right. split; [intros ->; destruct Ht|]. right. now apply IH.
Qed.

(** X5. [parseTechs] undoes joining with commas: a list of tokens that are
    non-empty, comma-free and trimmed is read back from its comma-joined
    form; hence reading the joined result of [parseTechs] changes
    nothing. *)
Theorem parseTechs_join_round_trip :
  (forall tokens, Forall clean_token tokens ->
                  parseTechs (Some (join COMMA tokens)) = tokens) /\
  (forall s, parseTechs (Some (join COMMA (parseTechs s))) = parseTechs s).
Proof.
  split.
  - exact parseTechs_join_clean.
  - intros s. apply parseTechs_join_clean, parseTechs_clean.
Qed.

Lemma parseTechs_join_round_trip_witness :
  Forall clean_token [js "React"; js "Node.js"] /\
  parseTechs (Some (js "React,Node.js")) = [js "React"; js "Node.js"].
Proof.
  assert (H : Forall clean_token [js "React"; js "Node.js"]).
  { repeat constructor; try discriminate;
      intros Hin; cbn in Hin; intuition discriminate. }
  split; [exact H|].
  exact (proj1 parseTechs_join_round_trip [js "React"; js "Node.js"] H).
Defined.

(* ------------------------------------------------------------------ *)
(** * Further properties of formatDate and getFeaturedImage *)
(* ------------------------------------------------------------------ *)

Lemma hyphen_not_presente s :
  In HYPHEN s -> jsstring_eqb (toLowerCase s) (js "presente") = false.
Proof.
  intros H. destruct (jsstring_eqb _ _) eqn:E; [|reflexivity].
  apply jsstring_eqb_eq in E.
  assert (Hin : In HYPHEN (toLowerCase s)).
  { unfold toLowerCase. apply in_map_iff. exists HYPHEN. now split. }
  rewrite E in Hin. cbn in Hin. intuition discriminate.
Qed.

(** X6. Only the first two hyphen-separated fields of the input count:
    a "YYYY-MM-DD" input is rendered like its "YYYY-MM" prefix, from the
    numbers read in its first two fields. *)
Theorem formatDate_extra_fields (render : number -> number -> jsstring)
  (y m rest : jsstring) :
  ~ In HYPHEN y -> ~ In HYPHEN m ->
  formatDate render (y ++ HYPHEN :: m ++ HYPHEN :: rest)
  = render (Number_of (Some y)) (number_sub (Number_of (Some m)) (Int 1)) /\
  formatDate render (y ++ HYPHEN :: m ++ HYPHEN :: rest)
  = formatDate render (y ++ HYPHEN :: m).
Proof.
  intros Hy Hm.
  assert (F : forall tail,
             split HYPHEN tail <> [] ->
             nth_error (split HYPHEN tail) 0 = Some m ->
             formatDate render (y ++ HYPHEN :: tail)
             = render (Number_of (Some y))
                 (number_sub (Number_of (Some m)) (Int 1))).
  { intros tail _ Hfirst. unfold formatDate.
    assert (Ht : truthy (y ++ HYPHEN :: tail) = true)
      by (destruct y; reflexivity).
    rewrite Ht. cbn [negb].
    rewrite hyphen_not_presente by (apply in_or_app; right; now left).
    rewrite split_app by exact Hy. cbv zeta.
    change (nth_error (y :: split HYPHEN tail) 0) with (Some y).
    change (nth_error (y :: split HYPHEN tail) 1)
      with (nth_error (split HYPHEN tail) 0).
    now rewrite Hfirst. }
  rewrite (F (m ++ HYPHEN :: rest)), (F m).
  - now split.
  - apply split_nonempty.
  - now rewrite split_whole.
  - apply split_nonempty.
  - now rewrite split_app.
Qed.

Lemma formatDate_extra_fields_witness :
  formatDate cldr_esES (js "2024-03-15") = js "mar 2024" /\
  formatDate cldr_esES (js "2024-03-15") = formatDate cldr_esES (js "2024-03").
Proof.
  assert (Hy : ~ In HYPHEN (js "2024"))
    by (intros H; cbn in H; intuition discriminate).
  assert (Hm : ~ In HYPHEN (js "03"))
    by (intros H; cbn in H; intuition discriminate).
  exact (@formatDate_extra_fields cldr_esES (js "2024") (js "03") (js "15")
           Hy Hm).
Defined.

(** X7. An input without hyphen that is neither empty nor "presente" has
    no month field: the month passed to the date is [NaN] (an invalid
    date), whatever the year. *)
Theorem formatDate_without_month (render : number -> number -> jsstring)
  (s : jsstring) :
  s <> [] -> ~ In HYPHEN s -> toLowerCase s <> js "presente" ->
  formatDate render s = render (Number_of (Some s)) NaN.
Proof.
  intros Hne Hh Hp. unfold formatDate.
  destruct s as [|c r]; [congruence|]. cbn [truthy negb].
  destruct (jsstring_eqb _ _) eqn:E; [apply jsstring_eqb_eq in E; congruence|].
  rewrite split_whole by exact Hh. reflexivity.
Qed.

Lemma formatDate_without_month_witness :
  formatDate cldr_esES (js "2024") = js "Invalid Date".
Proof.
  assert (Hh : ~ In HYPHEN (js "2024"))
    by (intros H; cbn in H; intuition discriminate).
  assert (Hne : js "2024" <> []) by discriminate.
  assert (Hp : toLowerCase (js "2024") <> js "presente") by discriminate.
  exact (@formatDate_without_month cldr_esES (js "2024") Hne Hh Hp).
Defined.

(** X8. Whenever [getFeaturedImage] returns a non-empty string, the post
    has embedded featured media and the string is the source URL of the
    first entry; later entries and the other fields of the post play no
    part. *)
Theorem getFeaturedImage_nonempty (post : WPPost) :
  getFeaturedImage post <> empty ->
  exists e m rest,
    _embedded post = Some e /\
    wp_featuredmedia e = Some (m :: rest) /\
    source_url m = Some (getFeaturedImage post).
Proof.
  unfold getFeaturedImage. intros H.
  destruct (_embedded post) as [e|]; [|now elim H].
  cbn [opt_chain] in *.
  destruct (wp_featuredmedia e) as [media|] eqn:Em; [|now elim H].
  cbn [opt_chain] in *.
  destruct media as [|m rest]; [now elim H|].
  cbn [opt_chain nth_error] in *.
  destruct (source_url m) as [u|] eqn:Eu; [|now elim H].
  cbn [opt_chain nullish] in *.
  exists e, m, rest. now repeat split.
Qed.

Lemma getFeaturedImage_nonempty_witness :
  exists e m rest,
    _embedded sample_post = Some e /\
    wp_featuredmedia e = Some (m :: rest) /\
    source_url m = Some (js "https://cdn.example.org/cover.png").
Proof.
  assert (H : getFeaturedImage sample_post <> empty) by discriminate.
  exact (@getFeaturedImage_nonempty sample_post H).
Defined.

(* ------------------------------------------------------------------ *)
(** * Further properties of groupSkillsByCategory *)
(* ------------------------------------------------------------------ *)

Section GroupOrderFacts.

Implicit Types (acc groups : Obj.t (list Skill)) (skills : list Skill).

Lemma existsb_created_keys acc k :
  existsb (jsstring_eqb k) (Obj.created_keys acc)
  = match Obj.get_own acc k with Some _ => true | None => false end.
Proof.
  destruct (Obj.get_own acc k) eqn:E.
  - apply existsb_exists. exists k. split; [|apply jsstring_eqb_refl].
    destruct (in_dec (list_eq_dec N.eq_dec) k (Obj.created_keys acc))
      as [Hin|Hout]; [exact Hin|].
    apply get_own_None in Hout. congruence.
  - apply get_own_None in E.
    destruct (existsb _ _) eqn:X; [|reflexivity].
    apply existsb_exists in X as (x & Hx & Hk).
    apply jsstring_eqb_eq in Hk. subst x. contradiction.
Qed.

Lemma grouped_is_plain skills groups :
  groupSkillsByCategory skills = Normal groups -> plain_labels skills = true.
Proof.
  intros H. destruct (plain_labels skills) eqn:E; [reflexivity|].
  unfold groupSkillsByCategory in H.
  rewrite (@reduce_inherited skills E []) in H; [discriminate|constructor].
Qed.

Lemma grouped_spec skills groups :
  groupSkillsByCategory skills = Normal groups ->
  NoDup (Obj.created_keys groups) /\
  (forall k, group_at groups k = with_label k skills) /\
  (forall k, In k (Obj.created_keys groups)
             <-> In k (List.map label_of skills)).
Proof.
  intros H. pose proof (@grouped_is_plain skills groups H) as Hplain.
  destruct (@reduce_plain skills Hplain [] (NoDup_nil _))
    as (g & Hred & Hnd & Hgroup & Hkeys).
  unfold groupSkillsByCategory in H. rewrite Hred in H.
  injection H as <-. split; [exact Hnd|]. split; [exact Hgroup|].
  intros k. rewrite Hkeys. cbn [Obj.created_keys map In]. tauto.
Qed.

Lemma reduce_plain_keys skills :
  plain_labels skills = true ->
  forall acc acc',
    reduce group_step skills acc = Normal acc' ->
    Obj.created_keys acc'
    = Obj.created_keys acc
      ++ first_occurrences (Obj.created_keys acc) (List.map label_of skills).
Proof.
  induction skills as [|skill skills IH]; intros Hplain acc acc' Hred.
  - cbn [reduce] in Hred. injection Hred as <-.
    cbn [map first_occurrences]. now rewrite app_nil_r.
  - cbn [plain_labels forallb] in Hplain.
    apply andb_true_iff in Hplain as [Hs Hrest].
    apply negb_true_iff in Hs.
    destruct (@group_step_plain acc skill Hs) as (acc1 & Hstep & _ & Hkeys).
    cbn [reduce] in Hred. rewrite Hstep in Hred.
    rewrite (IH Hrest acc1 acc' Hred), Hkeys.
    cbn [map first_occurrences]. rewrite existsb_created_keys.
    destruct (Obj.get_own acc (label_of skill)).
    + now rewrite app_nil_r.
    + now rewrite <- app_assoc.
Qed.

End GroupOrderFacts.

(** X10. [groupSkillsByCategory] throws exactly when some skill is
    labelled with the name of a property of [Object.prototype]; what it
    throws is a [TypeError], and on every other list it returns a
    grouping. *)
Theorem groupSkillsByCategory_throws_iff (skills : list Skill) :
  (groupSkillsByCategory skills = Throw JsTypeError
   <-> plain_labels skills = false) /\
  (forall e, groupSkillsByCategory skills = Throw e -> e = JsTypeError) /\
  (plain_labels skills = true
   <-> exists groups, groupSkillsByCategory skills = Normal groups).
Proof.
  destruct (plain_labels skills) eqn:E.
  - destruct (@reduce_plain skills E [] (NoDup_nil _)) as (g & Hred & _).
    unfold groupSkillsByCategory. rewrite Hred.
    split; [split; discriminate|]. split; [discriminate|].
    split; [now exists g|reflexivity].
  - unfold groupSkillsByCategory.
    rewrite (@reduce_inherited skills E []) by constructor.
    split; [split; reflexivity|]. split; [now intros e [= <-]|].
    split; [discriminate|]. intros [g Hg]. discriminate.
Qed.

(** X11. The groups are created in the order in which their labels first
    appear in the input, one group per label, and no group is empty. *)
Theorem groupSkillsByCategory_label_order (skills : list Skill)
  (groups : Obj.t (list Skill)) :
  groupSkillsByCategory skills = Normal groups ->
  Obj.created_keys groups = first_occurrences [] (List.map label_of skills) /\
  Forall (fun arr => arr <> []) (Obj.created_values groups).
Proof.
  intros H. pose proof (@grouped_is_plain skills groups H) as Hplain.
  split.
  - exact (@reduce_plain_keys skills Hplain [] groups H).
  - destruct (@grouped_spec skills groups H) as (Hnd & Hgroup & Hkeys).
    apply Forall_forall. intros arr Harr.
    apply in_map_iff in Harr as ([k arr'] & Hsnd & Hin). cbn [snd] in Hsnd.
    subst arr'.
    assert (Hk : In k (List.map label_of skills)).
    { apply Hkeys. apply in_map_iff. now exists (k, arr). }
    apply in_map_iff in Hk as (s & Hs & Hin').
    specialize (Hgroup k). unfold group_at in Hgroup.
    rewrite (@get_own_In _ groups k arr Hnd Hin) in Hgroup.
    cbn [nullish] in Hgroup. intros ->.
    assert (Hmem : In s (with_label k skills)).
    { apply filter_In. split; [exact Hin'|]. now apply jsstring_eqb_eq. }
    rewrite <- Hgroup in Hmem. destruct Hmem.
Qed.

Lemma groupSkillsByCategory_label_order_witness :
  let skills := [mkSkill 1 (Some (js "Backend")); mkSkill 2 None;
                 mkSkill 3 (Some (js "Backend")); mkSkill 4 (Some (js "Otros"))] in
  exists groups,
    groupSkillsByCategory skills = Normal groups /\
    Obj.created_keys groups = [js "Backend"; js "Otros"].
Proof.
  intros skills. eexists. split; [reflexivity|].
  exact (proj1 (@groupSkillsByCategory_label_order skills _ eq_refl)).
Defined.

(** X12. Grouping a concatenation: when two lists are grouped, so is
    their concatenation, and under each label it holds the group of the
    first list followed by the group of the second. *)
Theorem groupSkillsByCategory_app (l1 l2 : list Skill)
  (g1 g2 : Obj.t (list Skill)) :
  groupSkillsByCategory l1 = Normal g1 ->
  groupSkillsByCategory l2 = Normal g2 ->
  exists g,
    groupSkillsByCategory (l1 ++ l2) = Normal g /\
    forall k, group_at g k = group_at g1 k ++ group_at g2 k.
Proof.
  intros H1 H2.
  assert (Hplain : plain_labels (l1 ++ l2) = true).
  { unfold plain_labels. rewrite forallb_app.
    fold (plain_labels l1). fold (plain_labels l2).
    now rewrite (@grouped_is_plain l1 g1 H1), (@grouped_is_plain l2 g2 H2). }
  destruct (@reduce_plain (l1 ++ l2) Hplain [] (NoDup_nil _))
    as (g & Hred & _ & Hgroup & _).
  exists g. split; [exact Hred|]. intros k.
  destruct (@grouped_spec l1 g1 H1) as (_ & Hg1 & _).
  destruct (@grouped_spec l2 g2 H2) as (_ & Hg2 & _).
  rewrite Hgroup, Hg1, Hg2. unfold with_label. cbn [group_at Obj.get_own nullish app].
  apply filter_app.
Qed.

Lemma groupSkillsByCategory_app_witness :
  let a := mkSkill 1 (Some (js "Frontend")) in
  let b := mkSkill 2 (Some (js "Backend")) in
  let c := mkSkill 3 (Some (js "Frontend")) in
  exists g,
    groupSkillsByCategory ([a; b] ++ [c]) = Normal g /\
    group_at g (js "Frontend") = [a] ++ [c].
Proof.
  intros a b c.
  destruct (@groupSkillsByCategory_app [a; b] [c] _ _ eq_refl eq_refl)
    as (g & Hg & Hk).
  exists g. split; [exact Hg|]. exact (Hk (js "Frontend")).
Defined.

(** X13. Only a missing category is defaulted: a skill whose category is
    the empty string is filed under the empty label, not under
    "Otros". *)
Theorem groupSkillsByCategory_empty_label (skills : list Skill)
  (groups : Obj.t (list Skill)) (s : Skill) :
  groupSkillsByCategory skills = Normal groups ->
  In s skills ->
  category (skill_acf s) = Some empty ->
  In s (group_at groups empty) /\ ~ In s (group_at groups Otros).
Proof.
  intros H Hs Hcat.
  destruct (@grouped_spec skills groups H) as (_ & Hgroup & _).
  assert (Hl : label_of s = empty) by (unfold label_of; now rewrite Hcat).
  rewrite !Hgroup. unfold with_label. split.
  - apply filter_In. split; [exact Hs|]. rewrite Hl. reflexivity.
  - intros Hin. apply filter_In in Hin as [_ Hin].
    rewrite Hl in Hin. discriminate Hin.
Qed.

Lemma groupSkillsByCategory_empty_label_witness :
  let s := mkSkill 1 (Some empty) in
  let t := mkSkill 2 None in
  groupSkillsByCategory [s; t] = Normal [(empty, [s]); (Otros, [t])] /\
  In s [s] /\ ~ In s [t].
Proof.
  intros s t. split; [reflexivity|].
  exact (@groupSkillsByCategory_empty_label [s; t]
           [(empty, [s]); (Otros, [t])] s eq_refl (or_introl eq_refl) eq_refl).
Defined.

(* ------------------------------------------------------------------ *)
(** * Further properties of the fetch functions *)
(* ------------------------------------------------------------------ *)

Section DecimalFacts.

Lemma js_injective a b : js a = js b -> a = b.
Proof.
  unfold js. intros H.
  rewrite <- (string_of_list_ascii_of_string a),
          <- (string_of_list_ascii_of_string b).
  f_equal. revert H.
  generalize (list_ascii_of_string a) (list_ascii_of_string b).
  induction l as [|x l IH]; intros [|y l'] H; try discriminate;
    [reflexivity|].
  cbn [map] in H. injection H as Hxy Hl.
  f_equal; [|now apply IH].
  rewrite <- (ascii_N_embedding x), <- (ascii_N_embedding y). now f_equal.
Qed.

Lemma String_of_N_injective n n' : String_of_N n = String_of_N n' -> n = n'.
Proof.
  unfold String_of_N. intros H. apply js_injective in H.
  apply DecimalN.Unsigned.to_uint_inj.
  assert (Hnn : forall m, N.to_uint m <> Decimal.Nil).
  { intros [|p]; [discriminate|]. apply DecimalPos.Unsigned.to_uint_nonnil. }
  pose proof (NilZero.usu _ (Hnn n)) as U. rewrite H in U.
  rewrite (NilZero.usu _ (Hnn n')) in U. now injection U.
Qed.

Lemma String_of_Z_injective z z' : String_of_Z z = String_of_Z z' -> z = z'.
Proof.
  unfold String_of_Z. intros H. apply js_injective in H.
  assert (Hnn : forall m, Z.to_int m <> Decimal.Pos Decimal.Nil
                          /\ Z.to_int m <> Decimal.Neg Decimal.Nil).
  { intros [|p|p]; cbn [Z.to_int]; split; try discriminate;
      intros E; injection E as E;
      now apply DecimalPos.Unsigned.to_uint_nonnil in E. }
  pose proof (NilZero.isi _ (proj1 (Hnn z)) (proj2 (Hnn z))) as U.
  rewrite H in U.
  rewrite (NilZero.isi _ (proj1 (Hnn z')) (proj2 (Hnn z'))) in U.
  injection U as U.
  rewrite <- (DecimalZ.of_to z), <- (DecimalZ.of_to z'). now f_equal.
Qed.

Lemma uint_digits d :
  Forall (fun c => is_digit c = true) (js (NilEmpty.string_of_uint d)).
Proof.
  induction d; cbn [NilEmpty.string_of_uint]; try constructor;
    try reflexivity; assumption.
Qed.

Lemma String_of_N_digits n :
  Forall (fun c => is_digit c = true) (String_of_N n).
Proof.
  unfold String_of_N, NilZero.string_of_uint.
  destruct (N.to_uint n) eqn:E; try (rewrite <- E; apply uint_digits).
  repeat constructor.
Qed.

(** Two strings of digits followed by a colon agree on the digits and on
    what follows. *)
Lemma digits_colon_split a a' x x' :
  Forall (fun c => is_digit c = true) a ->
  Forall (fun c => is_digit c = true) a' ->
  a ++ 58 :: x = a' ++ 58 :: x' -> a = a' /\ x = x'.
Proof.
  intros Ha. revert a'.
  induction Ha as [|c a Hc Ha IH]; intros a' Ha' E.
  - destruct Ha' as [|c' a' Hc' Ha']; cbn [app] in E.
    + injection E as E. now split.
    + injection E as E _. subst c'. discriminate Hc'.
  - destruct Ha' as [|c' a' Hc' Ha']; cbn [app] in E.
    + injection E as E _. subst c. discriminate Hc.
    + injection E as E1 E2. destruct (IH a' Ha' E2) as [-> ->].
      now subst.
Qed.

End DecimalFacts.

Section FacadeFurther.

Variable env : option jsstring.

Context {platform : Platform}.

(** X14. Failures that are not HTTP statuses pass through every fetch
    function unchanged: when the base does not make an absolute URL the
    function fails with the [TypeError] of the URL constructor and sends
    nothing; when the request cannot be delivered it fails with the
    [TypeError] of [fetch]; when a successful response is not JSON it
    fails with the parser's [SyntaxError].  No second request is made. *)
Theorem fetch_failures_propagate (op : Operation) (srv : Server) :
  (new_URL (BASE env +++ endpoint_of op) = None ->
   requests (run env op) srv = [] /\
   outcome (run env op) srv = Throw JsTypeError) /\
  (forall u,
      new_URL (BASE env +++ endpoint_of op) = Some u ->
      exists req,
        requests (run env op) srv = [req] /\
        (srv req = None -> outcome (run env op) srv = Throw JsTypeError) /\
        (forall res,
            srv req = Some res -> ok res = true ->
            JSON_parse (body res) = None ->
            outcome (run env op) srv = Throw JsSyntaxError)).
Proof.
  destruct (run_shape env op) as [params Hshape].
  destruct (Hshape srv) as [Hreq Hout]. split.
  - intros Hnone. rewrite Hreq, Hout. unfold requests, outcome.
    now rewrite (@wpFetch_invalid env platform _ params srv Hnone).
  - intros u Hu. exists (wp_request u params).
    rewrite Hreq, Hout.
    split; [now apply wpFetch_requests|]. split.
    + intros Hdown.
      now rewrite (@wpFetch_unreachable env platform _ params srv u Hu Hdown).
    + intros res Hres Hok Hdec.
      now rewrite (@wpFetch_decoded env platform _ params srv u res
                     Hu Hres Hok), Hdec.
Qed.

(** X15. [wpFetch] builds its request on the URL that the constructor
    makes of the base and the endpoint, and sends the parameters it is
    given as they are: when their names are distinct and not in the query
    of that URL, they follow that query in order, the rest of the URL
    unchanged, under the JSON content-type header; without parameters the
    URL is sent as parsed. *)
Theorem wpFetch_request_params (endpoint : jsstring)
  (ps : list (jsstring * jsstring)) (srv : Server) (u : URL) :
  new_URL (BASE env +++ endpoint) = Some u ->
  NoDup (List.map fst (searchParams u) ++ List.map fst ps) ->
  requests (wpFetch env endpoint (Some ps)) srv
  = [{| url := {| href := href u; searchParams := searchParams u ++ ps |};
        headers := [(js "Content-Type", js "application/json")] |}] /\
  requests (wpFetch env endpoint None) srv
  = [{| url := u;
        headers := [(js "Content-Type", js "application/json")] |}].
Proof.
  intros Hu Hnd.
  rewrite (@wpFetch_requests env platform endpoint (Some ps) srv u Hu).
  rewrite (@wpFetch_requests env platform endpoint None srv u Hu).
  split; [|reflexivity].
  unfold wp_request. f_equal. f_equal.
  pose proof (fold_URL_set_fresh ps u Hnd) as Hsp.
  pose proof (fold_URL_set_href ps u) as Hhref.
  destruct (fold_left URL_set ps u) as [h sp].
  cbn [href searchParams] in *. now subst.
Qed.

(** X16. [getPostBySlug] returns [null] only from a successful response
    with a JSON body other than [null] whose element 0 is missing or
    [null] (an empty list, for one): an invalid base, an unreachable
    server, an HTTP error or a body that is not JSON is never turned into
    [null].  When the body is a list of several posts the first is
    returned. *)
Theorem getPostBySlug_null_iff (slug : jsstring) (srv : Server) :
  let params := Some [(js "slug", slug); (js "_embed", js "1")] in
  (outcome (getPostBySlug env slug) srv = Normal JNull
   <-> exists u res v,
         new_URL (BASE env +++ js "/wp/v2/posts") = Some u /\
         srv (wp_request u params) = Some res /\ ok res = true /\
         JSON_parse (body res) = Some v /\ v <> JNull /\
         (element0 v = None \/ element0 v = Some JNull)) /\
  (forall u res p rest,
      new_URL (BASE env +++ js "/wp/v2/posts") = Some u ->
      srv (wp_request u params) = Some res -> ok res = true ->
      JSON_parse (body res) = Some (JArray (p :: rest)) ->
      outcome (getPostBySlug env slug) srv = Normal p).
Proof.
  intros params.
  assert (Hout : outcome (getPostBySlug env slug) srv
                 = match new_URL (BASE env +++ js "/wp/v2/posts") with
                   | None => Throw JsTypeError
                   | Some u =>
                       match srv (wp_request u params) with
                       | None => Throw JsTypeError
                       | Some res =>
                           if ok res
                           then match JSON_parse (body res) with
                                | Some v => first_or_null v
                                | None => Throw JsSyntaxError
                                end
                           else Throw (JsError (error_message (status res)
                                                  (js "/wp/v2/posts")))
                       end
                   end).
  { unfold outcome, getPostBySlug, wpFetch.
    fold params. cbv beta delta [bind fetch lift throw].
    destruct (new_URL _) as [u|]; [|reflexivity].
    destruct (srv (wp_request u params)) as [res|]; [|reflexivity].
    destruct (ok res); cbn [negb]; [|reflexivity].
    unfold res_json. destruct (JSON_parse (body res)) as [v|]; [|reflexivity].
    cbv beta delta [ret]. cbn [snd]. destruct (first_or_null v); reflexivity. }
  rewrite Hout. split; [split|].
  - destruct (new_URL _) as [u|] eqn:Hu; [|discriminate].
    destruct (srv (wp_request u params)) as [res|] eqn:Hres; [|discriminate].
    destruct (ok res) eqn:Hok; [|discriminate].
    destruct (JSON_parse (body res)) as [v|] eqn:Hv; [|discriminate].
    intros H. exists u, res, v.
    split; [reflexivity|]. split; [exact Hres|]. split; [exact Hok|].
    split; [exact Hv|]. split.
    + intros ->. discriminate H.
    + assert (H' : Normal (element0 v ?? JNull) = Normal JNull)
        by (destruct v; try discriminate H; exact H).
      destruct (element0 v) as [x|]; [|now left].
      cbn [nullish] in H'. inversion H'. now right.
  - intros (u & res & v & -> & -> & -> & -> & Hv & Hel).
    destruct v; try congruence; cbn [first_or_null];
      destruct Hel as [-> | ->]; reflexivity.
  - intros u res p rest -> -> -> ->.
    cbn [first_or_null element0 nth_error]. now destruct p.
Qed.

(** X17. The message of the module's error identifies the failure: for
    statuses in the range of a response status, two messages are equal
    only for the same status and the same endpoint. *)
Theorem error_message_injective (s s' : N) (e e' : jsstring) :
  s < 65536 -> s' < 65536 ->
  error_message s e = error_message s' e' -> s = s' /\ e = e'.
Proof.
  unfold error_message. intros _ _ H.
  apply app_inv_head in H.
  change (js ": " +++ e) with (58 :: 32 :: e) in H.
  change (js ": " +++ e') with (58 :: 32 :: e') in H.
  destruct (@digits_colon_split _ _ _ _ (String_of_N_digits s)
              (String_of_N_digits s') H) as [Hs He].
  split; [now apply String_of_N_injective|]. now injection He.
Qed.

Lemma error_message_injective_witness :
  error_message 404 (js "/wp/v2/posts") = js "WP API Error 404: /wp/v2/posts"
  /\ (404 = 404 /\ js "/wp/v2/posts" = js "/wp/v2/posts").
Proof.
  split; [reflexivity|].
  exact (@error_message_injective 404 404 (js "/wp/v2/posts")
           (js "/wp/v2/posts") eq_refl eq_refl eq_refl).
Defined.

(** X18. The page size and the page number are encoded in the request
    without loss: on a base that makes an absolute URL and for integers
    that a number holds exactly, two calls of [getPosts] with different
    arguments send different requests. *)
Theorem getPosts_requests_differ (n p n' p' : Z) (srv : Server) (u : URL) :
  new_URL (BASE env +++ js "/wp/v2/posts") = Some u ->
  safe_integer n -> safe_integer p -> safe_integer n' -> safe_integer p' ->
  (n, p) <> (n', p') ->
  requests (getPosts env (Some n) (Some p)) srv
  <> requests (getPosts env (Some n') (Some p')) srv.
Proof.
  intros Hu _ _ _ _ Hne Heq. apply Hne.
  unfold getPosts in Heq. cbn [nullish] in Heq.
  rewrite !(@wpFetch_requests env platform _ _ srv u Hu) in Heq.
  assert (F : forall a b k v,
             In (k, v) [(js "per_page", String_of_Z a);
                        (js "page", String_of_Z b); (js "_embed", js "1")] ->
             searchParams_get
               (searchParams
                  (url (wp_request u
                          (Some [(js "per_page", String_of_Z a);
                                 (js "page", String_of_Z b);
                                 (js "_embed", js "1")])))) k = Some v).
  { intros a b k v Hin. apply fold_URL_set_get; [|exact Hin].
    repeat constructor; intros H; cbn in H; intuition discriminate. }
  pose proof (F n p (js "per_page") (String_of_Z n) (or_introl eq_refl)) as A1.
  pose proof (F n' p' (js "per_page") (String_of_Z n') (or_introl eq_refl))
    as A2.
  pose proof (F n p (js "page") (String_of_Z p)
                (or_intror (or_introl eq_refl))) as B1.
  pose proof (F n' p' (js "page") (String_of_Z p')
                (or_intror (or_introl eq_refl))) as B2.
  remember (wp_request u (Some [(js "per_page", String_of_Z n);
                                (js "page", String_of_Z p);
                                (js "_embed", js "1")])) as r1.
  remember (wp_request u (Some [(js "per_page", String_of_Z n');
                                (js "page", String_of_Z p');
                                (js "_embed", js "1")])) as r2.
  injection Heq as Heq. subst r2. rewrite Heq in A1, B1.
  rewrite A1 in A2. rewrite B1 in B2.
  injection A2 as A2. injection B2 as B2.
  apply String_of_Z_injective in A2, B2. now subst.
Qed.

(** X21. Each fetch function sends at most one request, fixed by its
    arguments: none when the base does not make an absolute URL, and
    otherwise exactly one, the same whatever the server answers, and none
    after it (no retry, no follow-up). *)
Theorem run_one_request (op : Operation) (srv srv' : Server) :
  requests (run env op) srv = requests (run env op) srv' /\
  (new_URL (BASE env +++ endpoint_of op) = None ->
   requests (run env op) srv = []) /\
  (forall u, new_URL (BASE env +++ endpoint_of op) = Some u ->
             exists req, requests (run env op) srv = [req]).
Proof.
  destruct (run_shape env op) as [params Hshape].
  destruct (Hshape srv) as [-> _]. destruct (Hshape srv') as [-> _].
  destruct (new_URL (BASE env +++ endpoint_of op)) as [u|] eqn:Hu.
  - rewrite !(@wpFetch_requests env platform _ params _ u Hu).
    split; [reflexivity|]. split; [discriminate|].
    intros u' _. now exists (wp_request u params).
  - unfold requests.
    rewrite !(@wpFetch_invalid env platform _ params _ Hu).
    split; [reflexivity|]. split; [reflexivity|]. discriminate.
Qed.

End FacadeFurther.

Lemma fetch_failures_propagate_witness :
  outcome (sample_run GetSkills) unreachable_server = Throw JsTypeError /\
  outcome (sample_run (GetPosts None None))
    (constant_server 200 (js "<html>Maintenance</html>"))
  = Throw JsSyntaxError /\
  requests (run (Some empty) (platform := sample_platform) GetProjects)
    (constant_server 200 (js "[]")) = [] /\
  outcome (run (Some empty) (platform := sample_platform) GetProjects)
    (constant_server 200 (js "[]")) = Throw JsTypeError.
Proof.
  split; [|split].
  - destruct (proj2 (@fetch_failures_propagate None sample_platform
                       GetSkills unreachable_server)
                {| href := js "https://tu-sitio.com/wp-json/wp/v2/skill";
                   searchParams := [] |} eq_refl) as (req & _ & Hdown & _).
    exact (Hdown eq_refl).
  - destruct (proj2 (@fetch_failures_propagate None sample_platform
                       (GetPosts None None)
                       (constant_server 200 (js "<html>Maintenance</html>")))
                {| href := js "https://tu-sitio.com/wp-json/wp/v2/posts";
                   searchParams := [] |} eq_refl) as (req & _ & _ & Hbad).
    exact (Hbad {| status := 200; body := js "<html>Maintenance</html>" |}
             eq_refl eq_refl eq_refl).
  - exact (proj1 (@fetch_failures_propagate (Some empty) sample_platform
                    GetProjects (constant_server 200 (js "[]"))) eq_refl).
Defined.

Lemma wpFetch_request_params_witness :
  requests (wpFetch None (platform := sample_platform) (js "/wp/v2/skill")
              (Some [(js "per_page", js "100");
                     (js "_fields", js "id,title,acf")]))
    unreachable_server
  = [{| url := {| href := js "https://tu-sitio.com/wp-json/wp/v2/skill";
                  searchParams := [(js "per_page", js "100");
                                   (js "_fields", js "id,title,acf")] |};
        headers := [(js "Content-Type", js "application/json")] |}].
Proof.
  assert (Hnd : NoDup (List.map fst (@nil (jsstring * jsstring))
                       ++ List.map fst [(js "per_page", js "100");
                                        (js "_fields", js "id,title,acf")])).
  { repeat constructor; intros H; cbn in H; intuition discriminate. }
  exact (proj1 (@wpFetch_request_params None sample_platform
                  (js "/wp/v2/skill") _ unreachable_server
                  {| href := js "https://tu-sitio.com/wp-json/wp/v2/skill";
                     searchParams := [] |} eq_refl Hnd)).
Defined.

Lemma getPostBySlug_null_iff_witness :
  outcome (getPostBySlug None (platform := sample_platform)
             (js "no-such-post"))
    (constant_server 200 (js "{}")) = Normal JNull /\
  outcome (getPostBySlug None (platform := sample_platform)
             (js "hola-mundo"))
    (constant_server 200 one_post_body) = Normal one_post.
Proof.
  split.
  - apply (proj1 (@getPostBySlug_null_iff None sample_platform
                    (js "no-such-post") (constant_server 200 (js "{}")))).
    exists {| href := js "https://tu-sitio.com/wp-json/wp/v2/posts";
              searchParams := [] |},
           {| status := 200; body := js "{}" |}, (JObject []).
    repeat split; try reflexivity; [discriminate|now left].
  - exact (proj2 (@getPostBySlug_null_iff None sample_platform
                    (js "hola-mundo") (constant_server 200 one_post_body))
             {| href := js "https://tu-sitio.com/wp-json/wp/v2/posts";
                searchParams := [] |}
             {| status := 200; body := one_post_body |} one_post []
             eq_refl eq_refl eq_refl eq_refl).
Defined.

Lemma getPosts_requests_differ_witness :
  requests (getPosts None (platform := sample_platform)
              (Some 10%Z) (Some 1%Z)) unreachable_server
  <> requests (getPosts None (platform := sample_platform)
                 (Some 10%Z) (Some 2%Z)) unreachable_server.
Proof.
  assert (S : forall z, (0 <= z <= 100)%Z -> safe_integer z)
    by (unfold safe_integer; intros; lia).
  apply (@getPosts_requests_differ None sample_platform
           10%Z 1%Z 10%Z 2%Z unreachable_server
           {| href := js "https://tu-sitio.com/wp-json/wp/v2/posts";
              searchParams := [] |} eq_refl);
    try (apply S; lia).
  discriminate.
Defined.

Lemma run_one_request_witness :
  requests (sample_run GetCategories) unreachable_server
  = requests (sample_run GetCategories) (constant_server 200 (js "[]")) /\
  (exists req, requests (sample_run GetCategories) unreachable_server = [req])
  /\ requests (run (Some empty) (platform := sample_platform) GetCategories)
       unreachable_server = [].
Proof.
  destruct (@run_one_request None sample_platform GetCategories
              unreachable_server (constant_server 200 (js "[]")))
    as (Hsame & _ & Hone).
  split; [exact Hsame|]. split.
  - exact (Hone {| href := js "https://tu-sitio.com/wp-json/wp/v2/categories";
                   searchParams := [] |} eq_refl).
  - exact (proj1 (proj2 (@run_one_request (Some empty) sample_platform
                           GetCategories unreachable_server
                           unreachable_server)) eq_refl).
Defined.

Lemma stripHtml_subsequence_witness :
  In 72 (stripHtml (js "<p>Hello</p>")) /\ In 72 (js "<p>Hello</p>").
Proof.
  assert (H : In 72 (stripHtml (js "<p>Hello</p>"))) by (now left).
  split; [exact H|].
  exact (proj2 (proj2 (stripHtml_subsequence (js "<p>Hello</p>"))) 72 H).
Defined.

Lemma parseTechs_tokens_clean_witness :
  clean_token (js "React") /\
  (forall c, In c (js "React") -> In c (js " React , Node,")).
Proof.
  destruct (parseTechs_tokens_clean (js " React , Node,")) as [Hclean Hin].
  split.
  - exact (Forall_inv Hclean).
  - exact (Forall_inv Hin).
Defined.

Lemma groupSkillsByCategory_throws_iff_witness :
  plain_labels [mkSkill 1 (Some (js "Tools"));
                mkSkill 2 (Some (js "toString"))] = false /\
  groupSkillsByCategory [mkSkill 1 (Some (js "Tools"));
                         mkSkill 2 (Some (js "toString"))]
  = Throw JsTypeError.
Proof.
  split; [reflexivity|].
  exact (proj2 (proj1 (groupSkillsByCategory_throws_iff
                         [mkSkill 1 (Some (js "Tools"));
                          mkSkill 2 (Some (js "toString"))])) eq_refl).
Defined.

(* ------------------------------------------------------------------ *)
(** * Reading years and months, and stripping an element *)
(* ------------------------------------------------------------------ *)

Section NumberFacts.

Lemma digits_value_cons (k : N) (acc : Z) (r : jsstring) :
  k < 10 ->
  digits_value acc ((48 + k) :: r) = digits_value (10 * acc + Z.of_N k) r.
Proof.
  intros Hk. cbn [digits_value]. unfold is_digit.
  replace (48 <=? 48 + k) with true by (symmetry; apply N.leb_le; lia).
  replace (48 + k <=? 57) with true by (symmetry; apply N.leb_le; lia).
  cbn [andb]. do 2 f_equal. lia.
Qed.

Ltac read_digit a s k :=
  change (js (String a s)) with ((48 + k) :: js s);
  rewrite digits_value_cons by reflexivity.

Ltac read_head :=
  match goal with
  | |- context [js (String "0" ?s)] => read_digit "0"%char s 0
  | |- context [js (String "1" ?s)] => read_digit "1"%char s 1
  | |- context [js (String "2" ?s)] => read_digit "2"%char s 2
  | |- context [js (String "3" ?s)] => read_digit "3"%char s 3
  | |- context [js (String "4" ?s)] => read_digit "4"%char s 4
  | |- context [js (String "5" ?s)] => read_digit "5"%char s 5
  | |- context [js (String "6" ?s)] => read_digit "6"%char s 6
  | |- context [js (String "7" ?s)] => read_digit "7"%char s 7
  | |- context [js (String "8" ?s)] => read_digit "8"%char s 8
  | |- context [js (String "9" ?s)] => read_digit "9"%char s 9
  end.

Lemma digits_value_acc d : forall acc : positive,
  digits_value (Z.pos acc) (js (NilEmpty.string_of_uint d))
  = Int (Z.pos (Pos.of_uint_acc d acc)).
Proof.
  induction d; intros acc;
    cbn [NilEmpty.string_of_uint Pos.of_uint_acc];
    try reflexivity;
    read_head; rewrite <- IHd; f_equal; lia.
Qed.

Lemma digits_value_uint d :
  digits_value 0 (js (NilEmpty.string_of_uint d)) = Int (Z.of_N (Pos.of_uint d)).
Proof.
  induction d; cbn [NilEmpty.string_of_uint Pos.of_uint];
    try reflexivity;
    read_head; try exact IHd;
    cbn [Z.of_N]; rewrite <- digits_value_acc; reflexivity.
Qed.

End NumberFacts.

Section ReadingFacts.

Lemma digit_not_space c : is_digit c = true -> is_white_space c = false.
Proof.
  unfold is_digit, is_white_space. intros H.
  apply andb_true_iff in H as [H1 H2].
  apply N.leb_le in H1, H2.
  repeat match goal with
         | |- context [?a <=? ?b] =>
             destruct (N.leb_spec a b); try lia
         | |- context [?a =? ?b] =>
             destruct (N.eqb_spec a b); try lia
         end; reflexivity.
Qed.

Lemma digits_trimmed s :
  Forall (fun c => is_digit c = true) s -> trim s = s.
Proof.
  intros H. apply ends_trimmed_fixed.
  destruct s as [|c r]; [reflexivity|]. unfold ends_trimmed.
  rewrite Forall_forall in H.
  rewrite (digit_not_space c) by (apply H; now left).
  rewrite (digit_not_space (last (c :: r) c)); [reflexivity|].
  apply H. destruct (@exists_last _ (c :: r)) as (r' & c' & E);
    [discriminate|].
  rewrite E, last_last. apply in_or_app. right. now left.
Qed.

(** [Number] reads a string of decimal digits as their value. *)
Lemma span_digits_all s :
  Forall (fun c => is_digit c = true) s -> span_digits s = (s, []).
Proof.
  induction 1 as [|c r Hc Hr IH]; cbn [span_digits]; [reflexivity|].
  now rewrite Hc, IH.
Qed.

Lemma non_decimal_digits s :
  Forall (fun c => is_digit c = true) s -> non_decimal s = None.
Proof.
  intros H. destruct s as [|z [|p [|d ds]]]; try reflexivity.
  apply Forall_inv_tail, Forall_inv in H. unfold is_digit in H.
  apply andb_true_iff in H as [H1 H2]. apply N.leb_le in H1, H2.
  unfold non_decimal.
  destruct (N.eqb_spec p 120); [lia|]. destruct (N.eqb_spec p 88); [lia|].
  destruct (N.eqb_spec p 111); [lia|]. destruct (N.eqb_spec p 79); [lia|].
  destruct (N.eqb_spec p 98); [lia|]. destruct (N.eqb_spec p 66); [lia|].
  cbn [orb]. now destruct (z =? 48).
Qed.

Lemma exact_safe z : safe_integer z -> exact z = Int z.
Proof.
  unfold safe_integer, exact, MAX_SAFE_INTEGER. intros H.
  destruct (Z.leb_spec (Z.abs z) 9007199254740991); [reflexivity|lia].
Qed.

(** [Number] reads a string of decimal digits as their value. *)
Lemma Number_of_digits s :
  Forall (fun c => is_digit c = true) s -> s <> [] ->
  Number_of (Some s) = exact (decimal_value s).
Proof.
  intros H Hne. unfold Number_of. rewrite (digits_trimmed H).
  destruct s as [|c r]; [congruence|].
  rewrite (non_decimal_digits H).
  pose proof (Forall_inv H) as Hc. unfold is_digit in Hc.
  apply andb_true_iff in Hc as [H1 H2]. apply N.leb_le in H1, H2.
  unfold PLUS, HYPHEN.
  destruct (N.eqb_spec c 43); [lia|]. destruct (N.eqb_spec c 45); [lia|].
  unfold unsigned_decimal.
  destruct (jsstring_eqb (c :: r) (js "Infinity")) eqn:E.
  { apply jsstring_eqb_eq in E. injection E as E _. lia. }
  rewrite (span_digits_all H), app_nil_r.
  cbn [exponent_part List.length Z.of_nat]. unfold scaled.
  cbn [Z.sub Z.opp Z.add Z.leb Z.compare Z.pow Z.pow_pos].
  now rewrite Z.mul_1_r.
Qed.


Lemma String_of_N_uint n :
  String_of_N n = js (NilEmpty.string_of_uint (N.to_uint n)).
Proof.
  unfold String_of_N, NilZero.string_of_uint.
  destruct (N.to_uint n) eqn:E; try reflexivity.
  destruct n as [|p]; [discriminate E|].
  now apply DecimalPos.Unsigned.to_uint_nonnil in E.
Qed.

Lemma String_of_N_nonempty n : String_of_N n <> [].
Proof.
  rewrite String_of_N_uint.
  destruct (N.to_uint n) eqn:E; try discriminate.
  destruct n as [|p]; [discriminate E|].
  now apply DecimalPos.Unsigned.to_uint_nonnil in E.
Qed.

Lemma digits_value_String_of_N n :
  digits_value 0 (String_of_N n) = Int (Z.of_N n).
Proof.
  rewrite String_of_N_uint, digits_value_uint.
  change (Pos.of_uint (N.to_uint n)) with (N.of_uint (N.to_uint n)).
  now rewrite DecimalN.Unsigned.of_to.
Qed.

Lemma decimal_value_String_of_N n : decimal_value (String_of_N n) = Z.of_N n.
Proof.
  unfold decimal_value. rewrite String_of_N_uint, digits_value_uint.
  change (Pos.of_uint (N.to_uint n)) with (N.of_uint (N.to_uint n)).
  now rewrite DecimalN.Unsigned.of_to.
Qed.

Lemma digits_no_hyphen s :
  Forall (fun c => is_digit c = true) s -> ~ In HYPHEN s.
Proof.
  intros H Hin. rewrite Forall_forall in H. now apply H in Hin.
Qed.

End ReadingFacts.

(** X19. [Number] undoes [String] on the natural numbers that a number
    holds exactly, with or without a leading zero; hence for a year [y]
    and a month [m] written in decimal, "y-m" or "y-0m", [formatDate]
    renders the date of year [y] and month index [m - 1]. *)
Theorem formatDate_year_month (render : number -> number -> jsstring)
  (y m : N) :
  safe_integer (Z.of_N y) -> safe_integer (Z.of_N m) ->
  Number_of (Some (String_of_N y)) = Int (Z.of_N y) /\
  Number_of (Some (48 :: String_of_N m)) = Int (Z.of_N m) /\
  formatDate render (String_of_N y ++ HYPHEN :: String_of_N m)
  = render (Int (Z.of_N y)) (Int (Z.of_N m - 1)) /\
  formatDate render (String_of_N y ++ HYPHEN :: 48 :: String_of_N m)
  = render (Int (Z.of_N y)) (Int (Z.of_N m - 1)).
Proof.
  intros Sy Sm.
  assert (Ny : Number_of (Some (String_of_N y)) = Int (Z.of_N y)).
  { rewrite Number_of_digits.
    - rewrite decimal_value_String_of_N. now apply exact_safe.
    - apply String_of_N_digits.
    - apply String_of_N_nonempty. }
  assert (Nm : Number_of (Some (String_of_N m)) = Int (Z.of_N m)).
  { rewrite Number_of_digits.
    - rewrite decimal_value_String_of_N. now apply exact_safe.
    - apply String_of_N_digits.
    - apply String_of_N_nonempty. }
  assert (D0 : Forall (fun c => is_digit c = true)
                 (48 :: String_of_N m : jsstring)).
  { constructor; [reflexivity|apply String_of_N_digits]. }
  assert (N0 : Number_of (Some (48 :: String_of_N m)) = Int (Z.of_N m)).
  { rewrite Number_of_digits; [|exact D0|discriminate].
    unfold decimal_value.
    change 48 with (48 + 0). rewrite digits_value_cons by reflexivity.
    change (digits_value (10 * 0 + Z.of_N 0) (String_of_N m))
      with (digits_value 0 (String_of_N m)).
    fold (decimal_value (String_of_N m)).
    rewrite decimal_value_String_of_N. now apply exact_safe. }
  assert (M1 : number_sub (Int (Z.of_N m)) (Int 1) = Int (Z.of_N m - 1)).
  { cbn [number_sub]. apply exact_safe. unfold safe_integer in *. lia. }
  assert (F : forall month : jsstring,
             Forall (fun c => is_digit c = true) month ->
             formatDate render (String_of_N y ++ HYPHEN :: month)
             = render (Number_of (Some (String_of_N y)))
                 (number_sub (Number_of (Some month)) (Int 1))).
  { intros month Hd. unfold formatDate.
    assert (Ht : truthy (String_of_N y ++ HYPHEN :: month) = true)
      by (destruct (String_of_N y); reflexivity).
    rewrite Ht. cbn [negb].
    rewrite hyphen_not_presente by (apply in_or_app; right; now left).
    rewrite split_app by (apply digits_no_hyphen, String_of_N_digits).
    rewrite split_whole by (now apply digits_no_hyphen).
    reflexivity. }
  split; [exact Ny|]. split; [exact N0|]. split.
  - rewrite F by apply String_of_N_digits. rewrite Ny. f_equal.
    etransitivity;
      [apply (f_equal (fun x => number_sub x (Int 1))); exact Nm|exact M1].
  - rewrite F by exact D0. rewrite Ny. f_equal.
    etransitivity;
      [apply (f_equal (fun x => number_sub x (Int 1))); exact N0|exact M1].
Qed.

Lemma formatDate_year_month_witness :
  formatDate cldr_esES (js "1999-12") = js "dic 1999" /\
  formatDate cldr_esES (js "2024-07") = js "jul 2024".
Proof.
  assert (S : forall n, n <= 9999 -> safe_integer (Z.of_N n))
    by (unfold safe_integer; intros; lia).
  split.
  - exact (proj1 (proj2 (proj2 (@formatDate_year_month cldr_esES 1999 12
                                  (S 1999 ltac:(lia)) (S 12 ltac:(lia)))))).
  - exact (proj2 (proj2 (proj2 (@formatDate_year_month cldr_esES 2024 7
                                  (S 2024 ltac:(lia)) (S 7 ltac:(lia)))))).
Defined.

(** X20. An element with plain text content gives its trimmed text: for
    tag bodies without [>] and a text without [<], the markup
    [<t1>text<t2>] is stripped to [text] trimmed. *)
Theorem stripHtml_element (t1 text t2 : jsstring) :
  no_GT t1 = true -> ~ In LT text -> no_GT t2 = true ->
  stripHtml (LT :: t1 ++ GT :: text ++ LT :: t2 ++ [GT]) = trim text.
Proof.
  intros H1 Htext H2. unfold stripHtml. f_equal. symmetry.
  apply tags_removed_functional. apply removed_tag; [exact H1|].
  induction text as [|c text IH]; cbn [app].
  - apply removed_tag; [exact H2|constructor].
  - apply removed_keep.
    + intros ->. apply Htext. now left.
    + apply IH. intros Hin. apply Htext. now right.
Qed.

Lemma stripHtml_element_witness :
  stripHtml (js "<a href='/x'> 3 > 2 </a>") = js "3 > 2".
Proof.
  assert (Htext : ~ In LT (js " 3 > 2 "))
    by (intros H; cbn in H; intuition discriminate).
  exact (@stripHtml_element (js "a href='/x'") (js " 3 > 2 ") (js "/a")
           eq_refl Htext eq_refl).
Defined.
